(** * A shallow embedding of [test-pylint.py]

    The script defines four functions over Python numbers and a main block:
    [calculate_average], [generate_random_list], [print_results] and
    [complex_function].  The embedding keeps the Python run-time visible:

    - a Python [int] is a [Z] (unbounded); a Python [float] is a binary64
      number, represented with the Standard Library's [spec_float];
    - the value returned by [calculate_average] is tagged ([VInt] or
      [VFloat]), because the script returns the integer [0] on one path and
      the result of a true division on the other;
    - exceptions, the process-wide random source and standard output are
      threaded through a small state-and-exception monad [M].

    [calculate_average] is embedded twice: on lists of Python integers,
    which is what the script itself produces with [random.randint], and,
    as [calculate_average_num], on lists that mix integers and floats. *)

From Stdlib Require Import ZArith QArith Qabs Qpower Lqa List Permutation String Ascii Bool Lia DecimalString.
From Stdlib Require Import Floats.SpecFloat.
Import ListNotations.

Local Open Scope Z_scope.

(** ** Run-time values, exceptions and the program monad *)

Module Py.

(** The exceptions the built-in operations used by the script can raise. *)
Inductive exn : Set :=
| ValueError
| ZeroDivisionError
| OverflowError.

Inductive outcome (A : Type) : Type :=
| Ok (a : A)
| Raise (e : exn).
Arguments Ok {A} a.
Arguments Raise {A} e.

(** A number as the script manipulates it: [0] and [0.0] are different
    objects. *)
Inductive value : Set :=
| VInt (z : Z)
| VFloat (f : spec_float).

(** The part of the process the script can observe or change: the random
    source (a tape of raw draws and a read position) and what has been
    written to standard output. *)
Record world : Type := mkWorld {
  entropy : nat -> Z;
  cursor : nat;
  stdout : string
}.

Definition M (A : Type) : Type := world -> outcome A * world.

Definition ret {A} (a : A) : M A := fun w => (Ok a, w).

Definition raise {A} (e : exn) : M A := fun w => (Raise e, w).

Definition bind {A B} (c : M A) (k : A -> M B) : M B :=
  fun w =>
    match c w with
    | (Ok a, w') => k a w'
    | (Raise e, w') => (Raise e, w')
    end.

End Py.
Import Py.

Notation "x <- c ;; k" := (bind c (fun x => k))
  (at level 61, c at next level, right associativity).
Notation "c ;;; k" := (bind c (fun _ => k))
  (at level 61, right associativity).

(** ** Binary64 true division of integers

    [a / b] on two Python integers is the binary64 number nearest to the
    exact quotient, ties going to the even significand; it raises
    [ZeroDivisionError] when [b] is zero and [OverflowError] when the
    rounded quotient does not fit in a float. *)

Module Float64.

Definition prec : Z := 53.
Definition emax : Z := 1024.
Definition emin : Z := -1074.

(** Nearest integer to [n / d] for [0 <= n] and [0 < d], ties to even. *)
Definition round_half_even (n d : Z) : Z :=
  let q := n / d in
  let r := n mod d in
  match 2 * r ?= d with
  | Lt => q
  | Gt => q + 1
  | Eq => if Z.even q then q else q + 1
  end.

(** [a / (b * 2^e)] is the fraction [scale_num a e / scale_den b e]. *)
Definition scale_num (a e : Z) : Z := a * 2 ^ Z.max (- e) 0.
Definition scale_den (b e : Z) : Z := b * 2 ^ Z.max e 0.

(** The exponent of the unit in the last place of [a / b]: the [e] with
    [2^52 <= a / (b * 2^e) < 2^53], and [emin] for quotients in the
    subnormal range. *)
Definition quotient_exponent (a b : Z) : Z :=
  let e1 := Z.log2 a - Z.log2 b - 52 in
  let e := if 2 ^ 52 <=? scale_num a e1 / scale_den b e1 then e1 else e1 - 1 in
  Z.max e emin.

(** Correctly rounded quotient of two positive integers. *)
Definition div_round (a b : Z) : spec_float :=
  let e := quotient_exponent a b in
  let m := round_half_even (scale_num a e) (scale_den b e) in
  let '(m', e') := if m =? 2 ^ prec then (2 ^ (prec - 1), e + 1) else (m, e) in
  match m' with
  | Zpos p => if e' <=? emax - prec then S754_finite false p e' else S754_infinity false
  | _ => S754_zero false
  end.

Definition with_sign (s : bool) (x : spec_float) : spec_float :=
  match x with
  | S754_zero _ => S754_zero s
  | S754_infinity _ => S754_infinity s
  | S754_nan => S754_nan
  | S754_finite _ m e => S754_finite s m e
  end.

Definition is_finite (x : spec_float) : bool :=
  match x with
  | S754_zero _ | S754_finite _ _ _ => true
  | _ => false
  end.

(** Conversion of an integer to the nearest float, as [float(n)] does. *)
Definition of_int (n : Z) : spec_float :=
  match n with
  | Z0 => S754_zero false
  | Zpos _ => div_round n 1
  | Zneg _ => with_sign true (div_round (- n) 1)
  end.

End Float64.
Import Float64.

(** The [/] operator on two integers. *)
Definition int_true_divide (a b : Z) : M value :=
  if b =? 0 then raise ZeroDivisionError
  else
    let s := xorb (a <? 0) (b <? 0) in
    if a =? 0 then ret (VFloat (S754_zero s))
    else
      let q := div_round (Z.abs a) (Z.abs b) in
      if is_finite q then ret (VFloat (with_sign s q)) else raise OverflowError.

(** [sum] and [len] on a list of integers. *)
Definition py_sum (numbers : list Z) : Z := fold_left Z.add numbers 0.
Definition py_len {A} (l : list A) : Z := Z.of_nat (List.length l).

(** ** The functions of the script *)

Definition calculate_average (numbers : list Z) : M value :=
  let total := py_sum numbers in
  let count := py_len numbers in
  if count =? 0 then ret (VInt 0)
  else int_true_divide total count.

(** [random.randint(a, b)]: an integer [N] with [a <= N <= b], taken from
    the next raw draw of the random source; [ValueError] on an empty range,
    raised before anything is drawn. *)
Definition randint (a b : Z) : M Z :=
  fun w =>
    if b <? a then (Raise ValueError, w)
    else
      (Ok (a + entropy w (cursor w) mod (b - a + 1)),
       mkWorld (entropy w) (S (cursor w)) (stdout w)).

(** [[body for _ in range(n)]]: the body is run [n] times, left to right,
    and the first exception ends the comprehension. *)
Fixpoint comprehension {A} (n : nat) (body : M A) : M (list A) :=
  match n with
  | O => ret []
  | S k =>
      x <- body ;;
      xs <- comprehension k body ;;
      ret (x :: xs)
  end.

(** [range(length)] has [max(length, 0)] elements. *)
Definition range_len (length : Z) : nat := Z.to_nat length.

Definition generate_random_list (length min_value max_value : Z) : M (list Z) :=
  comprehension (range_len length) (randint min_value max_value).

(** The defaults of the signature, [min_value=1] and [max_value=100]. *)
Definition default_min_value : Z := 1.
Definition default_max_value : Z := 100.

(** Numbers the arithmetic function accepts: anything with [+], [-] and [*]. *)
Class Numeric (A : Type) : Type := {
  add : A -> A -> A;
  sub : A -> A -> A;
  mul : A -> A -> A
}.

#[export] Instance Numeric_int : Numeric Z :=
  {| add := Z.add; sub := Z.sub; mul := Z.mul |}.

#[export] Instance Numeric_float : Numeric spec_float :=
  {| add := SFadd prec emax; sub := SFsub prec emax; mul := SFmul prec emax |}.

Definition complex_function {A} `{Numeric A} (a b c d e f : A) : A :=
  let x := add a b in
  let y := sub c d in
  let z := mul e f in
  let result := add (add x y) z in
  result.

(** ** Text of numbers, as [str] and [repr] produce it *)

Module Repr.

Definition newline : string := String (ascii_of_nat 10) EmptyString.

(** The decimal digits of an integer, with a minus sign when negative.
    Whether Python agrees to produce them is decided by [int_str], further
    down. *)
Definition int_repr (z : Z) : string :=
  DecimalString.NilZero.string_of_int (Z.to_int z).

Fixpoint join (sep : string) (l : list string) : string :=
  match l with
  | [] => EmptyString
  | [s] => s
  | s :: rest => s ++ sep ++ join sep rest
  end.

(** A list prints as its elements' [repr], separated by a comma and a
    space, between brackets. *)
Definition list_repr (l : list Z) : string :=
  "[" ++ join ", " (map int_repr l) ++ "]".

Fixpoint zeros (n : nat) : string :=
  match n with
  | O => EmptyString
  | S k => String "0" (zeros k)
  end.

(** The positive float [m * 2^e] as a fraction of integers. *)
Definition float_num (m e : Z) : Z := m * 2 ^ Z.max e 0.
Definition float_den (e : Z) : Z := 2 ^ Z.max (- e) 0.

(** [v / 10^k] as a fraction, for [v = vn / vd]. *)
Definition dec_num (vn k : Z) : Z := vn * 10 ^ Z.max (- k) 0.
Definition dec_den (vd k : Z) : Z := vd * 10 ^ Z.max k 0.

(** The least [p], counted up from [p0], with [vn / vd < 10^p]. *)
Fixpoint find_decpt (fuel : nat) (vn vd p0 : Z) : Z :=
  match fuel with
  | O => p0
  | S fuel' =>
      if dec_num vn p0 <? dec_den vd p0 then p0
      else find_decpt fuel' vn vd (p0 + 1)
  end.

(** Reading the decimal [c * 10^k] back as a float. *)
Definition read_decimal (c k : Z) : spec_float :=
  div_round (c * 10 ^ Z.max k 0) (10 ^ Z.max (- k) 0).

Definition same_float (x : spec_float) (m : positive) (e : Z) : bool :=
  match x with
  | S754_finite false m' e' => Pos.eqb m' m && (e' =? e)
  | _ => false
  end.

(** The decimal with [n] significant digits that reads back as the float
    [m * 2^e] and is nearest to it, as [Some (c, k)] for [c * 10^k], when
    there is one.  [p] is the position of the decimal point of the float. *)
Definition digits_at (m : positive) (e p n : Z) : option (Z * Z) :=
  let vn := float_num (Zpos m) e in
  let vd := float_den e in
  let k := p - n in
  let lo := dec_num vn k / dec_den vd k in
  let r := dec_num vn k mod dec_den vd k in
  let hi := lo + 1 in
  let lo_ok := same_float (read_decimal lo k) m e in
  let hi_ok := same_float (read_decimal hi k) m e in
  let lo_nearer :=
    match 2 * r ?= dec_den vd k with
    | Lt => true
    | Gt => false
    | Eq => Z.even lo
    end in
  if r =? 0 then Some (lo, k)
  else if lo_ok && (lo_nearer || negb hi_ok) then Some (lo, k)
  else if hi_ok then Some (hi, k)
  else None.

(** The first length, from [n] up, at which [digits_at] succeeds: the
    shortest decimal that identifies the float. *)
Fixpoint shortest_from (fuel : nat) (m : positive) (e p n : Z) : Z * Z :=
  match fuel with
  | O => (dec_num (float_num (Zpos m) e) (p - n) / dec_den (float_den e) (p - n), p - n)
  | S fuel' =>
      match digits_at m e p n with
      | Some ck => ck
      | None => shortest_from fuel' m e p (n + 1)
      end
  end.

(** Trailing zeros are not digits of the result. *)
Fixpoint strip_zeros (fuel : nat) (c k : Z) : Z * Z :=
  match fuel with
  | O => (c, k)
  | S fuel' =>
      if (c mod 10 =? 0) && negb (c =? 0) then strip_zeros fuel' (c / 10) (k + 1)
      else (c, k)
  end.

(** The digits of the shortest decimal and the position of its decimal
    point: the float is [0.d1d2...dn * 10^decpt]. *)
Definition shortest_digits (m : positive) (e : Z) : string * Z :=
  let p := find_decpt 700 (float_num (Zpos m) e) (float_den e) (-330) in
  let '(c, k) := shortest_from 17 m e p 1 in
  let '(c', k') := strip_zeros 400 c k in
  let ds := int_repr c' in
  (ds, k' + Z.of_nat (String.length ds)).

Definition exponent_repr (x : Z) : string :=
  let ds := int_repr (Z.abs x) in
  (if x <? 0 then "-" else "+") ++ (if Z.abs x <? 10 then "0" else EmptyString) ++ ds.

(** Layout of [repr]: scientific notation when the decimal point falls
    further than 16 places right or 4 places left of the first digit, and
    otherwise positional notation with at least one digit after the point. *)
Definition format_short (ds : string) (decpt : Z) : string :=
  let nd := String.length ds in
  if (decpt <=? -4) || (16 <? decpt) then
    substring 0 1 ds
      ++ (if (1 <? nd)%nat then "." ++ substring 1 (nd - 1) ds else EmptyString)
      ++ "e" ++ exponent_repr (decpt - 1)
  else if decpt <=? 0 then
    "0." ++ zeros (Z.to_nat (- decpt)) ++ ds
  else if Z.of_nat nd <=? decpt then
    ds ++ zeros (Z.to_nat decpt - nd) ++ ".0"
  else
    substring 0 (Z.to_nat decpt) ds
      ++ "." ++ substring (Z.to_nat decpt) (nd - Z.to_nat decpt) ds.

Definition sign_repr (s : bool) : string := if s then "-" else EmptyString.

Definition float_repr (x : spec_float) : string :=
  match x with
  | S754_nan => "nan"
  | S754_infinity s => sign_repr s ++ "inf"
  | S754_zero s => sign_repr s ++ "0.0"
  | S754_finite s m e =>
      let '(ds, decpt) := shortest_digits m e in
      sign_repr s ++ format_short ds decpt
  end.

(** The text an f-string substitutes for [{v}], when the conversion
    succeeds; see [value_text]. *)
Definition value_str (v : value) : string :=
  match v with
  | VInt z => int_repr z
  | VFloat f => float_repr f
  end.

End Repr.
Import Repr.

(** [print(s)] appends [s] and a newline to standard output. *)
Definition print (s : string) : M unit :=
  fun w => (Ok tt, mkWorld (entropy w) (cursor w) (stdout w ++ s ++ newline)).

(** An expression that may raise but leaves the process alone. *)
Definition lift {A} (o : outcome A) : M A := fun w => (o, w).

(** Converting an integer to text fails with [ValueError] when it has more
    than [int_max_str_digits] decimal digits; 4300 is the interpreter's
    default limit.  Floats always have a text. *)
Definition int_max_str_digits : Z := 4300.

Definition within_str_limit (z : Z) : bool :=
  Z.abs z <? 10 ^ int_max_str_digits.

Definition int_str (z : Z) : outcome string :=
  if within_str_limit z then Ok (int_repr z) else Raise ValueError.

Definition list_str (l : list Z) : outcome string :=
  if forallb within_str_limit l then Ok (list_repr l) else Raise ValueError.

Definition value_text (v : value) : outcome string :=
  match v with
  | VInt z => int_str z
  | VFloat f => Ok (float_repr f)
  end.

(** Each f-string is built, and may fail, just before its line is
    printed. *)
Definition print_results (numbers : list Z) (average : value) : M unit :=
  numbers_text <- lift (list_str numbers) ;;
  print ("Numbers: " ++ numbers_text) ;;;
  average_text <- lift (value_text average) ;;
  print ("Average: " ++ average_text).

(** The block under [if __name__ == "__main__"]. *)
Definition main : M unit :=
  random_numbers <- generate_random_list 10 default_min_value default_max_value ;;
  avg <- calculate_average random_numbers ;;
  print_results random_numbers avg ;;;
  let _ := complex_function 1 2 3 4 5 6 in
  ret tt.

(** ** The real number a float stands for *)

Module Exact.

Local Open Scope Q_scope.

Definition sign_factor (s : bool) : Q := if s then -1 # 1 else 1 # 1.

(** Value of a float as a rational; only finite floats are given one. *)
Definition F2Q (x : spec_float) : Q :=
  match x with
  | S754_finite s m e => sign_factor s * inject_Z (Zpos m) * (2 # 1) ^ e
  | _ => 0
  end.

(** Weight of the last bit of the significand. *)
Definition ulp (x : spec_float) : Q :=
  match x with
  | S754_finite _ _ e => (2 # 1) ^ e
  | _ => (2 # 1) ^ emin
  end.

(** The exact mean of a sequence of integers. *)
Definition mean (numbers : list Z) : Q :=
  inject_Z (py_sum numbers) / inject_Z (py_len numbers).

(** Least magnitude of a quotient that true division cannot return: half a
    unit in the last place above the largest float. *)
Definition overflow_threshold : Z := (2 ^ 1024 - 2 ^ 970)%Z.

End Exact.
Import Exact.

(** ** Round to nearest, ties to even *)

Module Nearest.

Local Open Scope Q_scope.

(** The binary64 numbers with a value: finite, with a significand and an
    exponent in range. *)
Definition canonical (x : spec_float) : Prop :=
  valid_binary prec emax x = true /\ is_finite x = true.

Definition significand (x : spec_float) : Z :=
  match x with
  | S754_finite _ m _ => Zpos m
  | _ => 0%Z
  end.

Definition sign_bit (x : spec_float) : bool :=
  match x with
  | S754_zero s | S754_infinity s | S754_finite s _ _ => s
  | S754_nan => false
  end.

(** [f] is the rounding of the real number [x]: no float is nearer to
    [x], and if another float is as near, the significand of [f] is
    even. *)
Definition nearest_even (x : Q) (f : spec_float) : Prop :=
  canonical f
  /\ (forall g, canonical g -> Qabs (F2Q f - x) <= Qabs (F2Q g - x))
  /\ (forall g, canonical g ->
        Qabs (F2Q g - x) == Qabs (F2Q f - x) ->
        ~ F2Q g == F2Q f ->
        Z.even (significand f) = true).

End Nearest.
Import Nearest.

(** ** Sequences of integers and floats

    [sum] adds the elements from left to right with [+], starting from the
    integer [0], as CPython does through version 3.11 (later versions
    compensate the rounding of float additions, which can change the last
    bits of a sum of floats; sums of integers are exact in all of them).
    [+] and [/] convert an integer operand to a float when the other
    operand is a float, which fails with [OverflowError] for an integer
    too large; arithmetic on floats follows IEEE 754 and raises nothing,
    except division by zero. *)

Module Num.

Definition obind {A B} (o : outcome A) (k : A -> outcome B) : outcome B :=
  match o with
  | Ok a => k a
  | Raise e => Raise e
  end.

(** [float(n)]. *)
Definition int_to_float (n : Z) : outcome spec_float :=
  let f := of_int n in
  if is_finite f then Ok f else Raise OverflowError.

(** The [+] operator. *)
Definition num_add (x y : value) : outcome value :=
  match x, y with
  | VInt a, VInt b => Ok (VInt (a + b))
  | VInt a, VFloat g =>
      obind (int_to_float a) (fun f => Ok (VFloat (SFadd prec emax f g)))
  | VFloat f, VInt b =>
      obind (int_to_float b) (fun g => Ok (VFloat (SFadd prec emax f g)))
  | VFloat f, VFloat g => Ok (VFloat (SFadd prec emax f g))
  end.

Fixpoint sum_from (start : value) (numbers : list value) : outcome value :=
  match numbers with
  | [] => Ok start
  | x :: rest => obind (num_add start x) (fun acc => sum_from acc rest)
  end.

(** [sum(numbers)]. *)
Definition num_sum (numbers : list value) : outcome value :=
  sum_from (VInt 0) numbers.

Definition is_zero (x : spec_float) : bool :=
  match x with
  | S754_zero _ => true
  | _ => false
  end.

Definition float_true_divide (f g : spec_float) : outcome value :=
  if is_zero g then Raise ZeroDivisionError
  else Ok (VFloat (SFdiv prec emax f g)).

(** The [/] operator. *)
Definition true_divide (x y : value) : M value :=
  match x, y with
  | VInt a, VInt b => int_true_divide a b
  | VInt a, VFloat g =>
      lift (obind (int_to_float a) (fun f => float_true_divide f g))
  | VFloat f, VInt b =>
      lift (obind (int_to_float b) (fun g => float_true_divide f g))
  | VFloat f, VFloat g => lift (float_true_divide f g)
  end.

End Num.
Import Num.

(** [calculate_average] on a sequence that may hold floats as well as
    integers; on integers alone it is [calculate_average] above. *)
Definition calculate_average_num (numbers : list value) : M value :=
  total <- lift (num_sum numbers) ;;
  let count := py_len numbers in
  if count =? 0 then ret (VInt 0)
  else true_divide total (VInt count).

(** ** Lines of a text *)

(** Number of occurrences of a character in a text, and of line ends. *)
Fixpoint occurrences (c : ascii) (s : string) : nat :=
  match s with
  | EmptyString => O
  | String c' s' => ((if Ascii.eqb c c' then 1 else 0) + occurrences c s')%nat
  end.

Definition newlines (s : string) : nat := occurrences (ascii_of_nat 10) s.

(** A world for the examples: a tape whose raw draws land, under the
    default bounds, on the sequence of the end-to-end scenario. *)
Definition scenario_numbers : list Z := [4; 77; 12; 99; 3; 50; 21; 8; 64; 33].

Definition scenario_world : world :=
  mkWorld (fun i => nth i scenario_numbers 1 - 1) 0 EmptyString.

(** * Properties *)

(** ** The monad *)

Lemma bind_ok {A B} (c : M A) (k : A -> M B) (w w' : world) (a : A) :
  c w = (Ok a, w') -> bind c k w = k a w'.
Proof. intros Hc. unfold bind. now rewrite Hc. Qed.

Lemma bind_raise {A B} (c : M A) (k : A -> M B) (w w' : world) (e : exn) :
  c w = (Raise e, w') -> bind c k w = (Raise e, w').
Proof. intros Hc. unfold bind. now rewrite Hc. Qed.

(** ** The random sequence generator *)

Section Generator.

Variables min_value max_value : Z.

Lemma randint_ok (w : world) :
  min_value <= max_value ->
  exists v,
    randint min_value max_value w
      = (Ok v, mkWorld (entropy w) (S (cursor w)) (stdout w))
    /\ min_value <= v <= max_value.
Proof.
  intros Hle. unfold randint.
  destruct (Z.ltb_spec max_value min_value) as [Hlt | _]; [lia |].
  eexists; split; [reflexivity |].
  pose proof (Z.mod_pos_bound (entropy w (cursor w)) (max_value - min_value + 1)).
  lia.
Qed.

Lemma randint_empty_range (w : world) :
  max_value < min_value ->
  randint min_value max_value w = (Raise ValueError, w).
Proof.
  intros Hlt. unfold randint.
  destruct (Z.ltb_spec max_value min_value); [reflexivity | lia].
Qed.

(** With valid bounds the comprehension runs to its end: it returns [n]
    elements within the bounds, takes [n] draws and prints nothing. *)
Lemma comprehension_randint (n : nat) :
  min_value <= max_value ->
  forall w, exists l,
    comprehension n (randint min_value max_value) w
      = (Ok l, mkWorld (entropy w) (n + cursor w) (stdout w))
    /\ List.length l = n
    /\ Forall (fun v => min_value <= v <= max_value) l.
Proof.
  intros Hle. induction n as [| n IH]; intros w.
  - exists []. destruct w; repeat split; constructor.
  - destruct (randint_ok w Hle) as (v & Hv & Hrange).
    destruct (IH (mkWorld (entropy w) (S (cursor w)) (stdout w))) as (l & Hl & Hlen & Hall).
    exists (v :: l). split; [| split].
    + cbn [comprehension]. rewrite (bind_ok _ _ _ _ _ Hv).
      rewrite (bind_ok _ _ _ _ _ Hl). cbn.
      now rewrite Nat.add_succ_r.
    + cbn. now rewrite Hlen.
    + now constructor.
Qed.

End Generator.

(** C3: for a non-negative length and bounds with [min_value <= max_value],
    [generate_random_list] returns a list of exactly [length] elements, each
    of them between [min_value] and [max_value] inclusive. *)
Theorem generate_random_list_length_bounds (length min_value max_value : Z) (w : world) :
  0 <= length ->
  min_value <= max_value ->
  exists l w',
    generate_random_list length min_value max_value w = (Ok l, w')
    /\ py_len l = length
    /\ Forall (fun v => min_value <= v <= max_value) l.
Proof.
  intros Hlen Hle. unfold generate_random_list, range_len.
  destruct (comprehension_randint min_value max_value (Z.to_nat length) Hle w)
    as (l & Hrun & Hn & Hall).
  exists l. eexists. split; [exact Hrun |]. split; [| exact Hall].
  unfold py_len. rewrite Hn. now apply Z2Nat.id.
Qed.

Lemma generate_random_list_length_bounds_witness :
  exists l w',
    generate_random_list 10 1 100 scenario_world = (Ok l, w')
    /\ py_len l = 10
    /\ Forall (fun v => 1 <= v <= 100) l.
Proof.
  apply (generate_random_list_length_bounds 10 1 100 scenario_world); lia.
Defined.

(** C6: for a length of at least one and bounds with
    [min_value > max_value], [generate_random_list] raises [ValueError],
    the invalid-range error of [random.randint], and returns no list. *)
Theorem generate_random_list_invalid_range (length min_value max_value : Z) (w : world) :
  1 <= length ->
  max_value < min_value ->
  generate_random_list length min_value max_value w = (Raise ValueError, w).
Proof.
  intros Hlen Hlt. unfold generate_random_list, range_len.
  destruct (Z.to_nat length) as [| n] eqn:Hn; [lia |].
  cbn [comprehension].
  now apply bind_raise, randint_empty_range.
Qed.

Lemma generate_random_list_invalid_range_witness :
  generate_random_list 3 100 1 scenario_world = (Raise ValueError, scenario_world).
Proof.
  apply (generate_random_list_invalid_range 3 100 1 scenario_world); lia.
Defined.

(** C7: whatever the bounds, [generate_random_list(0, min_value, max_value)]
    returns the empty list. *)
Theorem generate_random_list_zero_length (min_value max_value : Z) (w : world) :
  generate_random_list 0 min_value max_value w = (Ok [], w).
Proof. reflexivity. Qed.

(** C9: with a length of zero the bounds are never looked at: for
    [min_value > max_value], where one draw would raise [ValueError], the
    generator still returns the empty list and leaves the random source
    where it was. *)
Theorem zero_length_skips_range_check (min_value max_value : Z) (w : world) :
  max_value < min_value ->
  fst (randint min_value max_value w) = Raise ValueError
  /\ generate_random_list 0 min_value max_value w = (Ok [], w).
Proof.
  intros Hlt. split; [| reflexivity].
  now rewrite randint_empty_range.
Qed.

Lemma zero_length_skips_range_check_witness :
  fst (randint 100 1 scenario_world) = Raise ValueError
  /\ generate_random_list 0 100 1 scenario_world = (Ok [], scenario_world).
Proof.
  apply (zero_length_skips_range_check 100 1 scenario_world); lia.
Defined.

(** ** The arithmetic function *)

(** C4: [complex_function(a, b, c, d, e, f)] is [(a + b) + (c - d) + (e * f)],
    with the operators of whatever numeric type the arguments have; on
    integers this is the exact value, and
    [complex_function(1, 2, 3, 4, 5, 6)] is 32. *)
Theorem complex_function_value :
  (forall (A : Type) (N : Numeric A) (a b c d e f : A),
      complex_function a b c d e f = add (add (add a b) (sub c d)) (mul e f))
  /\ (forall a b c d e f : Z,
        complex_function a b c d e f = (a + b) + (c - d) + (e * f))
  /\ complex_function 1 2 3 4 5 6 = 32.
Proof. repeat split. Qed.

(** ** Binary64 division: the rounded quotient *)

Lemma round_half_even_near (n d : Z) :
  0 <= n -> 0 < d ->
  n / d <= round_half_even n d <= n / d + 1
  /\ 2 * Z.abs (round_half_even n d * d - n) <= d
  /\ (2 * Z.abs (round_half_even n d * d - n) = d -> Z.even (round_half_even n d) = true).
Proof.
  intros Hn Hd. unfold round_half_even.
  pose proof (Z.div_mod n d ltac:(lia)) as Hdm.
  pose proof (Z.mod_pos_bound n d Hd) as Hr.
  set (q := n / d) in *. set (r := n mod d) in *.
  destruct (Z.compare_spec (2 * r) d) as [Heq | Hlt | Hgt];
    [destruct (Z.even q) eqn:Hev | |];
    (split; [lia | split; [lia |]]); intros Htie;
    first [exact Hev | rewrite Z.even_add, Hev; reflexivity | exfalso; lia].
Qed.

Lemma scale_den_pos (b e : Z) : 0 < b -> 0 < scale_den b e.
Proof.
  intros Hb. unfold scale_den. apply Z.mul_pos_pos; [exact Hb |].
  apply Z.pow_pos_nonneg; lia.
Qed.

Lemma scale_num_pos (a e : Z) : 0 < a -> 0 < scale_num a e.
Proof.
  intros Ha. unfold scale_num. apply Z.mul_pos_pos; [exact Ha |].
  apply Z.pow_pos_nonneg; lia.
Qed.

(** Raising the exponent by [k] divides the scaled quotient by [2^k]. *)
Lemma scale_shift (a b e e' : Z) :
  e <= e' ->
  scale_num a e * scale_den b e' = scale_num a e' * scale_den b e * 2 ^ (e' - e).
Proof.
  intros Hle. unfold scale_num, scale_den.
  transitivity (a * b * (2 ^ Z.max (- e) 0 * 2 ^ Z.max e' 0)); [ring |].
  transitivity (a * b * (2 ^ Z.max (- e') 0 * 2 ^ Z.max e 0 * 2 ^ (e' - e))); [| ring].
  f_equal. rewrite <- !Z.pow_add_r by lia. f_equal. lia.
Qed.

Lemma div_ge_iff (n d q : Z) : 0 < d -> (q <= n / d <-> q * d <= n).
Proof.
  intros Hd. split; intros H.
  - pose proof (Z.mul_div_le n d Hd). nia.
  - apply Z.div_le_lower_bound; lia.
Qed.

Lemma div_lt_iff (n d q : Z) : 0 < d -> (n / d < q <-> n < q * d).
Proof.
  intros Hd. pose proof (div_ge_iff n d q Hd). lia.
Qed.

(** At the exponent chosen by [quotient_exponent] the scaled quotient is
    below [2^53], and it is at least [2^52] unless the exponent was raised
    to [emin]. *)
Lemma quotient_exponent_range (a b : Z) :
  0 < a -> 0 < b ->
  let e := quotient_exponent a b in
  emin <= e
  /\ scale_num a e < 2 ^ 53 * scale_den b e
  /\ (emin < e -> 2 ^ 52 * scale_den b e <= scale_num a e).
Proof.
  intros Ha Hb.
  pose proof (Z.log2_spec a Ha) as Hla. pose proof (Z.log2_spec b Hb) as Hlb.
  pose proof (Z.log2_nonneg a) as Hla0. pose proof (Z.log2_nonneg b) as Hlb0.
  unfold quotient_exponent.
  set (la := Z.log2 a) in *. set (lb := Z.log2 b) in *.
  set (e1 := la - lb - 52).
  (* the first estimate brackets the quotient between 2^51 and 2^53 *)
  assert (Hrel : 2 * 2 ^ la * 2 ^ Z.max (- e1) 0 = 2 ^ 53 * 2 ^ lb * 2 ^ Z.max e1 0).
  { replace (2 * 2 ^ la) with (2 ^ (la + 1)) by (rewrite Z.pow_add_r by lia; lia).
    rewrite <- !Z.pow_add_r by lia. f_equal. unfold e1. lia. }
  assert (HX : 0 < 2 ^ Z.max (- e1) 0) by (apply Z.pow_pos_nonneg; lia).
  assert (HY : 0 < 2 ^ Z.max e1 0) by (apply Z.pow_pos_nonneg; lia).
  assert (Hup1 : scale_num a e1 < 2 ^ 53 * scale_den b e1).
  { unfold scale_num, scale_den. rewrite Z.pow_succ_r in Hla by lia. nia. }
  assert (Hlo1 : 2 ^ 51 * scale_den b e1 <= scale_num a e1).
  { unfold scale_num, scale_den. rewrite Z.pow_succ_r in Hlb by lia.
    change (2 ^ 53) with (4 * 2 ^ 51) in Hrel. nia. }
  pose proof (scale_den_pos b e1 Hb) as HD1.
  pose proof (scale_den_pos b (e1 - 1) Hb) as HD0.
  (* second estimate *)
  set (e := if 2 ^ 52 <=? scale_num a e1 / scale_den b e1 then e1 else e1 - 1).
  assert (Hpre : scale_num a e < 2 ^ 53 * scale_den b e
                 /\ 2 ^ 52 * scale_den b e <= scale_num a e).
  { unfold e. destruct (Z.leb_spec (2 ^ 52) (scale_num a e1 / scale_den b e1)) as [Hge | Hlt].
    - split; [exact Hup1 |]. apply div_ge_iff in Hge; lia.
    - apply div_lt_iff in Hlt; [| lia].
      pose proof (scale_shift a b (e1 - 1) e1 ltac:(lia)) as Hs.
      replace (e1 - (e1 - 1)) with 1 in Hs by lia. change (2 ^ 1) with 2 in Hs.
      change (2 ^ 53) with (2 * 2 ^ 52). change (2 ^ 52) with (2 * 2 ^ 51) at 2.
      split; nia. }
  destruct Hpre as [Hup Hlo].
  destruct (Z.max_spec e emin) as [[Hlt ->] | [Hge ->]].
  - split; [lia |]. split; [| lia].
    pose proof (scale_shift a b e emin ltac:(lia)) as Hs.
    pose proof (scale_den_pos b e Hb) as HDe.
    pose proof (scale_den_pos b emin Hb) as HDm.
    pose proof (scale_num_pos a emin Ha) as HNm.
    assert (HK : 1 <= 2 ^ (emin - e)) by (pose proof (Z.pow_pos_nonneg 2 (emin - e)); lia).
    set (C := 2 ^ 53) in *.
    assert (Hmono : scale_num a emin * scale_den b e <= scale_num a e * scale_den b emin).
    { rewrite Hs. rewrite <- (Z.mul_1_r (scale_num a emin * scale_den b e)) at 1.
      apply Z.mul_le_mono_nonneg_l; [nia | exact HK]. }
    assert (Hbound : scale_num a e * scale_den b emin < C * scale_den b emin * scale_den b e) by nia.
    apply (Z.mul_lt_mono_pos_r (scale_den b e)); lia.
  - split; [lia |]. split; [exact Hup |]. intros _. exact Hlo.
Qed.

(** What [div_round] returns, case by case. *)
Lemma div_round_spec (a b : Z) :
  0 < a -> 0 < b ->
  match div_round a b with
  | S754_finite s p e =>
      s = false
      /\ emin <= e <= emax - prec
      /\ Zpos p < 2 ^ 53
      /\ (emin < e -> 2 ^ 52 <= Zpos p)
      /\ 2 * Z.abs (Zpos p * scale_den b e - scale_num a e) <= scale_den b e
      /\ (2 * Z.abs (Zpos p * scale_den b e - scale_num a e) = scale_den b e ->
          Z.even (Zpos p) = true)
  | S754_zero s => s = false /\ 2 * scale_num a emin <= scale_den b emin
  | S754_infinity s => s = false /\ overflow_threshold * b <= a
  | S754_nan => False
  end.
Proof.
  intros Ha Hb. unfold div_round.
  destruct (quotient_exponent_range a b Ha Hb) as (Hemin & Hup & Hlo).
  set (e := quotient_exponent a b) in *.
  pose proof (scale_den_pos b e Hb) as HD.
  pose proof (scale_num_pos a e Ha) as HN.
  destruct (round_half_even_near (scale_num a e) (scale_den b e) ltac:(lia) HD)
    as (Hm & Hnear & Htie).
  set (m := round_half_even (scale_num a e) (scale_den b e)) in *.
  assert (Hq0 : 0 <= scale_num a e / scale_den b e) by (apply Z.div_pos; lia).
  assert (Hq53 : scale_num a e / scale_den b e < 2 ^ 53) by (apply div_lt_iff; lia).
  assert (Hq52 : emin < e -> 2 ^ 52 <= scale_num a e / scale_den b e).
  { intros He. apply div_ge_iff; [lia |]. now apply Hlo. }
  assert (Hbig : forall k, 0 <= k -> k <= e ->
                   scale_num a e = a /\ 2 ^ k * b <= scale_den b e).
  { intros k Hk Hke. unfold scale_num, scale_den.
    rewrite (Z.max_r (- e) 0), (Z.max_l e 0) by lia. split; [ring |].
    pose proof (Z.pow_le_mono_r 2 k e ltac:(lia) Hke). nia. }
  assert (Hthr : 2 * overflow_threshold = (2 ^ 54 - 1) * 2 ^ 971) by reflexivity.
  assert (Hthr' : overflow_threshold <= 2 ^ 52 * 2 ^ 972) by (vm_compute; discriminate).
  change (2 ^ prec) with (2 ^ 53). change (emax - prec) with 971.
  destruct (Z.eqb_spec m (2 ^ 53)) as [Hm53 | Hm53].
  - change (2 ^ (prec - 1)) with 4503599627370496.
    destruct (Z.leb_spec (e + 1) 971) as [He | He].
    + split; [reflexivity |]. split; [lia |]. split; [reflexivity |].
      split; [intros _; discriminate |].
      pose proof (scale_shift a b e (e + 1) ltac:(lia)) as Hs.
      replace (e + 1 - e) with 1 in Hs by lia. change (2 ^ 1) with 2 in Hs.
      pose proof (scale_den_pos b (e + 1) Hb) as HD'.
      rewrite Hm53 in Hnear. change (2 ^ 53) with (2 * 4503599627370496) in Hnear.
      split; [nia | reflexivity].
    + split; [reflexivity |].
      destruct (Hbig 971 ltac:(lia) ltac:(lia)) as [HNa HDb].
      rewrite Hm53, HNa in Hnear. pose proof (Z.pow_pos_nonneg 2 971 ltac:(lia) ltac:(lia)).
      nia.
  - destruct m as [| p | p] eqn:Hmp.
    + split; [reflexivity |].
      assert (e = emin) as <- by (destruct (Z.eq_dec e emin); [assumption | lia]).
      lia.
    + destruct (Z.leb_spec e 971) as [He | He].
      * repeat split; try lia. exact Htie.
      * split; [reflexivity |].
        destruct (Hbig 972 ltac:(lia) ltac:(lia)) as [HNa HDb].
        rewrite HNa in Hlo. specialize (Hlo ltac:(unfold emin; lia)).
        pose proof (Z.pow_pos_nonneg 2 972 ltac:(lia) ltac:(lia)).
        nia.
    + lia.
Qed.

Lemma digits2_pos_log2 (p : positive) :
  Zpos (digits2_pos p) = Z.log2 (Zpos p) + 1.
Proof.
  assert (Hsize : forall q, digits2_pos q = Pos.size q).
  { induction q as [q IH | q IH |]; cbn; now rewrite ?IH. }
  rewrite Hsize. destruct p; cbn; lia.
Qed.

(** A significand below [2^53] that is at least [2^52] whenever the
    exponent is above [emin] makes a canonical binary64 number. *)
Lemma bounded_of_range (p : positive) (e : Z) :
  emin <= e <= emax - prec ->
  Zpos p < 2 ^ 53 ->
  (emin < e -> 2 ^ 52 <= Zpos p) ->
  bounded prec emax p e = true.
Proof.
  intros He Hp53 Hp52. unfold bounded, canonical_mantissa, fexp.
  change (SpecFloat.emin prec emax) with emin.
  rewrite digits2_pos_log2. apply andb_true_intro. split; [| apply Z.leb_le; lia].
  apply Z.eqb_eq.
  assert (Hlog : Z.log2 (Zpos p) < 53) by (apply Z.log2_lt_pow2; lia).
  destruct (Z_lt_le_dec emin e) as [Hnormal | Hsub].
  - assert (Z.log2 (Zpos p) = 52).
    { apply Z.log2_unique; [lia |]. split; [now apply Hp52 | exact Hp53]. }
    unfold prec, emin in *. lia.
  - unfold prec, emin in *. lia.
Qed.

(** ** Binary64 division: distance to the exact quotient *)

Section Accuracy.

Local Open Scope Q_scope.

Lemma pow2_fraction (e : Z) :
  (2 # 1) ^ e == inject_Z (2 ^ Z.max e 0) / inject_Z (2 ^ Z.max (- e) 0).
Proof.
  destruct (Z_lt_le_dec e 0) as [Hneg | Hpos].
  - rewrite (Z.max_r e 0), (Z.max_l (- e) 0) by lia.
    rewrite (Zpower_Qpower 2 (- e)) by lia.
    replace e with (- - e)%Z at 1 by lia.
    rewrite Qpower_opp.
    change (inject_Z 2) with (2 # 1). change (inject_Z (2 ^ 0)) with 1.
    unfold Qdiv. now rewrite Qmult_1_l.
  - rewrite (Z.max_l e 0), (Z.max_r (- e) 0) by lia.
    rewrite (Zpower_Qpower 2 e) by lia.
    change (inject_Z 2) with (2 # 1). change (inject_Z (2 ^ 0)) with 1.
    unfold Qdiv. change (/ 1) with 1. now rewrite Qmult_1_r.
Qed.

(** From the integer inequality on scaled quantities to the distance
    between the float and the exact quotient. *)
Lemma half_ulp_rational (sg m a b e : Z) :
  (0 < b)%Z ->
  (2 * Z.abs (sg * m * scale_den b e - scale_num a e) <= scale_den b e)%Z ->
  Qabs (inject_Z sg * inject_Z m * (2 # 1) ^ e - inject_Z a / inject_Z b)
    <= (1 # 2) * (2 # 1) ^ e.
Proof.
  intros Hb Hnear. rewrite pow2_fraction.
  unfold scale_den, scale_num in Hnear.
  assert (HU : (0 < 2 ^ Z.max e 0)%Z) by (apply Z.pow_pos_nonneg; lia).
  assert (HV : (0 < 2 ^ Z.max (- e) 0)%Z) by (apply Z.pow_pos_nonneg; lia).
  set (U := (2 ^ Z.max e 0)%Z) in *. set (V := (2 ^ Z.max (- e) 0)%Z) in *.
  destruct b as [| pb | pb]; try lia.
  destruct U as [| pu | pu]; try lia.
  destruct V as [| pv | pv]; try lia.
  unfold Qle, Qabs, Qminus, Qplus, Qopp, Qdiv, Qmult, Qinv, inject_Z.
  cbn [Qnum Qden].
  nia.
Qed.

End Accuracy.

(** ** The run-time model on known values

    Quotients and texts a Python interpreter gives, and agreement of
    [div_round] with the division of the Standard Library's IEEE 754
    specification on operands that are floats themselves. *)

Example div_round_third :
  div_round 1 3 = S754_finite false 6004799503160661 (-54).
Proof. vm_compute. reflexivity. Qed.

Example div_round_agrees_with_SFdiv :
  map (fun ab => div_round (fst ab) (snd ab))
      [(1, 3); (371, 10); (2, 3); (7, 2); (1, 10); (2 ^ 53 - 1, 2 ^ 52 + 1)]
  = map (fun ab => SFdiv prec emax (of_int (fst ab)) (of_int (snd ab)))
      [(1, 3); (371, 10); (2, 3); (7, 2); (1, 10); (2 ^ 53 - 1, 2 ^ 52 + 1)].
Proof. vm_compute. reflexivity. Qed.

Example div_round_ties_to_even :
  div_round (2 ^ 53 + 1) 1 = S754_finite false (2 ^ 52) 1
  /\ div_round (2 ^ 53 + 3) 1 = S754_finite false (2 ^ 52 + 2) 1.
Proof. split; vm_compute; reflexivity. Qed.

Example div_round_largest_float :
  div_round (2 ^ 1024 - 2 ^ 970 - 1) 1 = S754_finite false (2 ^ 53 - 1) 971
  /\ div_round (2 ^ 1024 - 2 ^ 970) 1 = S754_infinity false.
Proof. split; vm_compute; reflexivity. Qed.

Example div_round_subnormal :
  div_round 1 (2 ^ 1074) = S754_finite false 1 (-1074)
  /\ div_round 1 (2 ^ 1075) = S754_zero false.
Proof. split; vm_compute; reflexivity. Qed.

Example float_repr_known :
  map (fun ab => float_repr (div_round (fst ab) (snd ab)))
      [(1, 3); (2, 3); (1, 10); (7, 2); (100, 1); (10 ^ 16, 1); (10 ^ 15, 1);
       (1, 10 ^ 4); (1, 10 ^ 5); (2 ^ 53, 1); (1, 7)]
  = ["0.3333333333333333"; "0.6666666666666666"; "0.1"; "3.5"; "100.0";
     "1e+16"; "1000000000000000.0"; "0.0001"; "1e-05"; "9007199254740992.0";
     "0.14285714285714285"]%string.
Proof. vm_compute. reflexivity. Qed.

Example true_divide_signs :
  fst (int_true_divide (-7) 2 scenario_world)
    = Ok (VFloat (S754_finite true 7881299347898368 (-51)))
  /\ float_repr (S754_finite true 7881299347898368 (-51)) = "-3.5"%string
  /\ fst (int_true_divide 0 5 scenario_world) = Ok (VFloat (S754_zero false))
  /\ float_repr (S754_zero false) = "0.0"%string.
Proof. repeat split; vm_compute; reflexivity. Qed.

(** ** Binary64 division: overflow *)

(** Quotients from [overflow_threshold] up round to something no float
    holds. *)
Lemma div_round_overflow (a b : Z) :
  0 < a -> 0 < b ->
  overflow_threshold * b <= a ->
  div_round a b = S754_infinity false.
Proof.
  intros Ha Hb Hbig.
  pose proof (div_round_spec a b Ha Hb) as Hspec.
  assert (Hthr : 2 * overflow_threshold = (2 ^ 54 - 1) * 2 ^ 971) by reflexivity.
  assert (HT : 0 < overflow_threshold) by reflexivity.
  destruct (div_round a b) as [s | s | | s p e].
  - exfalso. destruct Hspec as [_ Hzero].
    unfold scale_num, scale_den in Hzero.
    change (Z.max (- emin) 0) with 1074 in Hzero. change (Z.max emin 0) with 0 in Hzero.
    pose proof (Z.pow_pos_nonneg 2 1074 ltac:(lia) ltac:(lia)).
    change (2 ^ 0) with 1 in Hzero. nia.
  - now destruct Hspec as [-> _].
  - contradiction.
  - exfalso. destruct Hspec as (_ & He & Hp53 & _ & Hnear & Htie).
    unfold scale_num, scale_den in Hnear, Htie.
    assert (HU : 0 < 2 ^ Z.max e 0) by (apply Z.pow_pos_nonneg; lia).
    assert (HV : 0 < 2 ^ Z.max (- e) 0) by (apply Z.pow_pos_nonneg; lia).
    assert (HUV : 2 ^ Z.max e 0 <= 2 ^ 971 * 2 ^ Z.max (- e) 0).
    { change (emax - prec) with 971 in He.
      pose proof (Z.pow_le_mono_r 2 (Z.max e 0) 971 ltac:(lia) ltac:(lia)).
      pose proof (Z.pow_pos_nonneg 2 971 ltac:(lia) ltac:(lia)). nia. }
    set (U := 2 ^ Z.max e 0) in *. set (V := 2 ^ Z.max (- e) 0) in *.
    set (P := 2 ^ 971) in *. assert (HP : 0 < P) by reflexivity.
    assert (H1 : 2 * (a * V) <= (2 * Zpos p + 1) * (b * U)) by lia.
    assert (H2 : 2 * overflow_threshold * (b * V) <= 2 * (a * V)) by nia.
    assert (H3 : (2 * Zpos p + 1) * (b * U) <= (2 * Zpos p + 1) * P * (b * V)) by nia.
    assert (HbV : 0 < b * V) by nia.
    assert (H4 : (2 ^ 54 - 1) * P * (b * V) <= (2 * Zpos p + 1) * P * (b * V)) by lia.
    assert (H5 : 2 ^ 54 - 1 <= 2 * Zpos p + 1).
    { apply (Z.mul_le_mono_pos_r _ _ (P * (b * V))); [nia |]. lia. }
    assert (Hp : Zpos p = 2 ^ 53 - 1).
    { change (2 ^ 54) with (2 * 2 ^ 53) in H5. lia. }
    rewrite Hp in *.
    assert (Heven : Z.even (2 ^ 53 - 1) = true).
    { apply Htie.
      assert (H6 : (2 * (2 ^ 53 - 1) + 1) * P * (b * V) = 2 * overflow_threshold * (b * V)).
      { rewrite Hthr. change (2 * (2 ^ 53 - 1) + 1) with (2 ^ 54 - 1). reflexivity. }
      lia. }
    discriminate Heven.
Qed.

Lemma div_round_finite (a b : Z) :
  0 < a -> 0 < b ->
  a < overflow_threshold * b ->
  is_finite (div_round a b) = true.
Proof.
  intros Ha Hb Hsmall.
  pose proof (div_round_spec a b Ha Hb) as Hspec.
  destruct (div_round a b); try reflexivity; [| contradiction].
  destruct Hspec as [_ Hbig]. lia.
Qed.

(** ** The [/] operator *)

Lemma scale_num_abs (a e : Z) : scale_num (Z.abs a) e = Z.abs (scale_num a e).
Proof.
  unfold scale_num. rewrite Z.abs_mul. f_equal.
  symmetry. apply Z.abs_eq. apply Z.pow_nonneg. lia.
Qed.

(** The float a finite, signed result of [div_round] becomes lies within
    half a unit in the last place of the exact quotient. *)
Lemma with_sign_near (a b : Z) :
  a <> 0 -> 0 < b ->
  is_finite (div_round (Z.abs a) b) = true ->
  let f := with_sign (a <? 0) (div_round (Z.abs a) b) in
  valid_binary prec emax f = true
  /\ is_finite f = true
  /\ (Qabs (F2Q f - inject_Z a / inject_Z b) <= (1 # 2) * ulp f)%Q.
Proof.
  intros Ha Hb Hfin.
  pose proof (div_round_spec (Z.abs a) b ltac:(lia) Hb) as Hspec.
  destruct (div_round (Z.abs a) b) as [s | s | | s p e]; try discriminate; cbn.
  - destruct Hspec as [_ Hzero]. rewrite scale_num_abs in Hzero.
    split; [reflexivity |]. split; [reflexivity |].
    pose proof (half_ulp_rational 1 0 a b emin Hb) as Hq.
    pose proof (scale_den_pos b emin Hb).
    specialize (Hq ltac:(lia)).
    assert (E : (inject_Z 1 * inject_Z 0 * (2 # 1) ^ emin == 0)%Q) by ring.
    now rewrite E in Hq.
  - destruct Hspec as (_ & He & Hp53 & Hp52 & Hnear & _).
    rewrite scale_num_abs in Hnear.
    split; [now apply bounded_of_range |]. split; [reflexivity |].
    assert (HX : 0 < 2 ^ Z.max (- e) 0) by (apply Z.pow_pos_nonneg; lia).
    destruct (Z.ltb_spec a 0) as [Hneg | Hpos].
    + apply (half_ulp_rational (-1) (Zpos p) a b e Hb).
      assert (scale_num a e < 0) by (unfold scale_num; nia). lia.
    + apply (half_ulp_rational 1 (Zpos p) a b e Hb).
      assert (0 < scale_num a e) by (unfold scale_num; nia). lia.
Qed.

Section TrueDivide.

Variables (a b : Z) (w : world).
Hypothesis Hb : 0 < b.

Lemma int_true_divide_returns :
  Z.abs a < overflow_threshold * b ->
  exists f,
    int_true_divide a b w = (Ok (VFloat f), w)
    /\ valid_binary prec emax f = true
    /\ is_finite f = true
    /\ (Qabs (F2Q f - inject_Z a / inject_Z b) <= (1 # 2) * ulp f)%Q.
Proof.
  intros Hsmall. unfold int_true_divide.
  destruct (Z.eqb_spec b 0) as [? | _]; [lia |].
  destruct (Z.ltb_spec b 0) as [? | _]; [lia |]. rewrite xorb_false_r.
  rewrite (Z.abs_eq b) by lia.
  destruct (Z.eqb_spec a 0) as [-> | Ha].
  - exists (S754_zero false). repeat split.
    pose proof (half_ulp_rational 1 0 0 b emin Hb) as Hq.
    pose proof (scale_den_pos b emin Hb).
    unfold scale_num in Hq. specialize (Hq ltac:(lia)).
    assert (E : (inject_Z 1 * inject_Z 0 * (2 # 1) ^ emin == 0)%Q) by ring.
    now rewrite E in Hq.
  - assert (Hfin : is_finite (div_round (Z.abs a) b) = true)
      by (apply div_round_finite; lia).
    rewrite Hfin. eexists. split; [reflexivity |].
    now apply with_sign_near.
Qed.

Lemma int_true_divide_overflows :
  overflow_threshold * b <= Z.abs a ->
  int_true_divide a b w = (Raise OverflowError, w).
Proof.
  intros Hbig. unfold int_true_divide.
  assert (HT : 0 < overflow_threshold) by reflexivity.
  destruct (Z.eqb_spec b 0) as [? | _]; [lia |].
  destruct (Z.eqb_spec a 0) as [-> | Ha]; [change (Z.abs 0) with 0 in Hbig; nia |].
  rewrite (Z.abs_eq b) by lia.
  now rewrite div_round_overflow by lia.
Qed.

End TrueDivide.

Lemma int_true_divide_pure (a b : Z) :
  exists r, forall w, int_true_divide a b w = (r, w).
Proof.
  unfold int_true_divide.
  destruct (b =? 0); [now eexists |].
  destruct (a =? 0); [now eexists |].
  destruct (is_finite _); now eexists.
Qed.

Lemma int_true_divide_zero_division (a b : Z) (w : world) :
  fst (int_true_divide a b w) = Raise ZeroDivisionError <-> b = 0.
Proof.
  unfold int_true_divide.
  destruct (Z.eqb_spec b 0) as [-> | Hb]; [easy |].
  destruct (a =? 0); [easy |].
  destruct (is_finite _); easy.
Qed.

(** ** The average calculator *)

Lemma py_len_pos {A} (l : list A) : l <> [] -> 0 < py_len l.
Proof. destruct l; [easy | intros _; unfold py_len; cbn; lia]. Qed.

Lemma calculate_average_nonempty (numbers : list Z) :
  numbers <> [] ->
  calculate_average numbers = int_true_divide (py_sum numbers) (py_len numbers).
Proof.
  intros Hne. unfold calculate_average.
  pose proof (py_len_pos numbers Hne).
  destruct (Z.eqb_spec (py_len numbers) 0); [lia | reflexivity].
Qed.

Lemma calculate_average_pure (numbers : list Z) :
  exists r, forall w, calculate_average numbers w = (r, w).
Proof.
  unfold calculate_average.
  destruct (py_len numbers =? 0); [now eexists |].
  apply int_true_divide_pure.
Qed.

(** On integers too large for a float no mean is returned: for the
    one-element list [[2**1024]] the division raises [OverflowError]. *)
Lemma calculate_average_mean_counterexample :
  calculate_average [2 ^ 1024] scenario_world
    = (Raise OverflowError, scenario_world).
Proof. vm_compute. reflexivity. Qed.

(** The integer embedding: for a non-empty list of integers whose mean is
    below [overflow_threshold] in magnitude, [calculate_average] returns a
    float, a canonical finite binary64 number within half a unit in the
    last place of the exact mean [sum / len]; from [overflow_threshold] on
    it raises [OverflowError]. *)
Theorem calculate_average_mean (numbers : list Z) (w : world) :
  numbers <> [] ->
  (Z.abs (py_sum numbers) < overflow_threshold * py_len numbers ->
   exists f,
     calculate_average numbers w = (Ok (VFloat f), w)
     /\ valid_binary prec emax f = true
     /\ is_finite f = true
     /\ (Qabs (F2Q f - mean numbers) <= (1 # 2) * ulp f)%Q)
  /\ (overflow_threshold * py_len numbers <= Z.abs (py_sum numbers) ->
      calculate_average numbers w = (Raise OverflowError, w)).
Proof.
  intros Hne. rewrite (calculate_average_nonempty numbers Hne).
  pose proof (py_len_pos numbers Hne) as Hlen. split.
  - now apply int_true_divide_returns.
  - now apply int_true_divide_overflows.
Qed.

Lemma calculate_average_mean_witness :
  exists f,
    calculate_average scenario_numbers scenario_world
      = (Ok (VFloat f), scenario_world)
    /\ valid_binary prec emax f = true
    /\ is_finite f = true
    /\ (Qabs (F2Q f - mean scenario_numbers) <= (1 # 2) * ulp f)%Q.
Proof.
  apply (calculate_average_mean scenario_numbers scenario_world).
  - discriminate.
  - vm_compute. reflexivity.
Defined.

(** C2: on the empty list [calculate_average] returns the integer [0],
    which is not the float [0.0], and raises nothing. *)
Theorem calculate_average_empty (w : world) :
  calculate_average [] w = (Ok (VInt 0), w)
  /\ VInt 0 <> VFloat (S754_zero false).
Proof. split; [reflexivity | discriminate]. Qed.

(** C8: the result of [calculate_average] depends on the list alone, not
    on the state of the process it is called in, and the call leaves that
    state (random source and standard output) as it found it. *)
Theorem calculate_average_deterministic (numbers : list Z) (w1 w2 : world) :
  fst (calculate_average numbers w1) = fst (calculate_average numbers w2)
  /\ snd (calculate_average numbers w1) = w1.
Proof.
  destruct (calculate_average_pure numbers) as [r Hr].
  now rewrite !Hr.
Qed.

(** C10: true division raises [ZeroDivisionError] exactly when the divisor
    is zero, and [calculate_average] never does: an empty list is answered
    before the division is reached. *)
Theorem calculate_average_no_zero_division :
  (forall a b w, fst (int_true_divide a b w) = Raise ZeroDivisionError <-> b = 0)
  /\ (forall numbers w,
        fst (calculate_average numbers w) <> Raise ZeroDivisionError).
Proof.
  split; [exact int_true_divide_zero_division |].
  intros numbers w. destruct numbers as [| x l].
  - discriminate.
  - rewrite calculate_average_nonempty by discriminate.
    intros Hraise. apply int_true_divide_zero_division in Hraise.
    pose proof (py_len_pos (x :: l) ltac:(discriminate)). lia.
Qed.

(** ** The report and the main block *)

Lemma append_assoc (s1 s2 s3 : string) :
  ((s1 ++ s2) ++ s3 = s1 ++ (s2 ++ s3))%string.
Proof. induction s1 as [| c s1 IH]; cbn; [reflexivity | now rewrite IH]. Qed.

Lemma print_results_output (numbers : list Z) (average : value) (w : world)
    (numbers_text average_text : string) :
  list_str numbers = Ok numbers_text ->
  value_text average = Ok average_text ->
  print_results numbers average w
  = (Ok tt,
     mkWorld (entropy w) (cursor w)
       (stdout w ++ ("Numbers: " ++ numbers_text) ++ newline
                 ++ ("Average: " ++ average_text) ++ newline)).
Proof.
  intros Hnumbers Haverage.
  unfold print_results, print, bind, lift. rewrite Hnumbers, Haverage.
  cbn [entropy cursor stdout]. now rewrite !append_assoc.
Qed.

(** The generator writes nothing and only moves the read position of the
    random source. *)
Lemma generate_random_list_world (length min_value max_value : Z) (w w' : world) (l : list Z) :
  min_value <= max_value ->
  generate_random_list length min_value max_value w = (Ok l, w') ->
  w' = mkWorld (entropy w) (Z.to_nat length + cursor w) (stdout w).
Proof.
  intros Hle Hrun. unfold generate_random_list, range_len in Hrun.
  destruct (comprehension_randint min_value max_value (Z.to_nat length) Hle w)
    as (l' & Hrun' & _).
  congruence.
Qed.

Example scenario_average :
  forall w,
    calculate_average scenario_numbers w
    = (Ok (VFloat (S754_finite false 5221360817982669 (-47))), w).
Proof. intros w. vm_compute. reflexivity. Qed.

Example scenario_average_text :
  value_str (VFloat (S754_finite false 5221360817982669 (-47))) = "37.1"%string.
Proof. vm_compute. reflexivity. Qed.

Example scenario_numbers_text :
  list_repr scenario_numbers = "[4, 77, 12, 99, 3, 50, 21, 8, 64, 33]"%string.
Proof. vm_compute. reflexivity. Qed.

Example scenario_numbers_str :
  list_str scenario_numbers = Ok "[4, 77, 12, 99, 3, 50, 21, 8, 64, 33]"%string.
Proof. vm_compute. reflexivity. Qed.

Example scenario_average_str :
  value_text (VFloat (S754_finite false 5221360817982669 (-47))) = Ok "37.1"%string.
Proof. vm_compute. reflexivity. Qed.

(** C5: when the ten draws of the main block come out as
    [4, 77, 12, 99, 3, 50, 21, 8, 64, 33], the program ends normally after
    adding to standard output the line
    [Numbers: [4, 77, 12, 99, 3, 50, 21, 8, 64, 33]], then the line
    [Average: 37.1], and nothing else. *)
Theorem main_scenario_output (w w' : world) :
  generate_random_list 10 1 100 w = (Ok scenario_numbers, w') ->
  fst (main w) = Ok tt
  /\ stdout (snd (main w))
     = (stdout w
        ++ "Numbers: [4, 77, 12, 99, 3, 50, 21, 8, 64, 33]" ++ newline
        ++ "Average: 37.1" ++ newline)%string.
Proof.
  intros Hgen.
  pose proof (generate_random_list_world 10 1 100 w w' _ ltac:(lia) Hgen) as Hw'.
  unfold main. change default_min_value with 1. change default_max_value with 100.
  rewrite (bind_ok _ _ _ _ _ Hgen).
  rewrite (bind_ok _ _ _ _ _ (scenario_average w')).
  rewrite (bind_ok _ _ _ _ _
             (print_results_output _ _ w' _ _ scenario_numbers_str scenario_average_str)).
  cbn [ret fst snd stdout].
  split; [reflexivity |]. now rewrite Hw'.
Qed.

Lemma main_scenario_output_witness :
  fst (main scenario_world) = Ok tt
  /\ stdout (snd (main scenario_world))
     = (stdout scenario_world
        ++ "Numbers: [4, 77, 12, 99, 3, 50, 21, 8, 64, 33]" ++ newline
        ++ "Average: 37.1" ++ newline)%string.
Proof.
  apply (main_scenario_output scenario_world
           (mkWorld (entropy scenario_world) 10 (stdout scenario_world))).
  vm_compute. reflexivity.
Defined.

(** * Further properties *)

(** ** More on the average calculator *)

(** *** Sums *)

Lemma fold_left_add_acc (l : list Z) (acc : Z) :
  fold_left Z.add l acc = acc + fold_left Z.add l 0.
Proof.
  revert acc. induction l as [| x l IH]; intros acc; cbn; [lia |].
  rewrite (IH (acc + x)), (IH x). lia.
Qed.

Lemma py_sum_cons (x : Z) (l : list Z) : py_sum (x :: l) = x + py_sum l.
Proof. unfold py_sum. cbn. apply fold_left_add_acc. Qed.

Lemma py_len_cons {A} (x : A) (l : list A) : py_len (x :: l) = 1 + py_len l.
Proof. unfold py_len. cbn [List.length]. lia. Qed.

Lemma py_sum_app (l1 l2 : list Z) : py_sum (l1 ++ l2) = py_sum l1 + py_sum l2.
Proof.
  induction l1 as [| x l1 IH]; [reflexivity |].
  cbn [app]. rewrite !py_sum_cons, IH. lia.
Qed.

Lemma py_sum_permutation (l1 l2 : list Z) :
  Permutation l1 l2 -> py_sum l1 = py_sum l2.
Proof.
  induction 1 as [| x l l' _ IH | x y l | l l' l'' _ IH1 _ IH2];
    rewrite ?py_sum_cons; lia.
Qed.

Lemma py_sum_bounds (lo hi : Z) (l : list Z) :
  Forall (fun v => lo <= v <= hi) l ->
  lo * py_len l <= py_sum l <= hi * py_len l.
Proof.
  induction 1 as [| x l Hx _ IH]; [cbn; lia |].
  rewrite py_sum_cons, py_len_cons. lia.
Qed.

(** *** Value of the rounded quotient *)

(** Before the significand is brought back under [2^53], the result of
    [div_round] is [m * 2^e] for the exponent and the rounded significand
    the function computes first. *)
Lemma div_round_value (a b : Z) :
  0 < a -> 0 < b ->
  is_finite (div_round a b) = true ->
  (F2Q (div_round a b)
   == inject_Z (round_half_even (scale_num a (quotient_exponent a b))
                                (scale_den b (quotient_exponent a b)))
      * (2 # 1) ^ quotient_exponent a b)%Q.
Proof.
  intros Ha Hb. unfold div_round.
  set (e := quotient_exponent a b).
  pose proof (scale_den_pos b e Hb) as HD. pose proof (scale_num_pos a e Ha) as HN.
  destruct (round_half_even_near (scale_num a e) (scale_den b e) ltac:(lia) HD)
    as (Hq & _).
  pose proof (Z.div_pos (scale_num a e) (scale_den b e) ltac:(lia) HD) as Hq0.
  remember (round_half_even (scale_num a e) (scale_den b e)) as m eqn:Hmdef.
  clear Hmdef.
  destruct (Z.eqb_spec m (2 ^ prec)) as [Hm | Hm].
  - change (2 ^ (prec - 1)) with 4503599627370496.
    destruct (e + 1 <=? emax - prec); [| discriminate]. intros _.
    rewrite Hm. cbn [F2Q sign_factor].
    rewrite Qpower_plus by discriminate.
    change (2 ^ prec) with (2 * 4503599627370496).
    rewrite inject_Z_mult. change ((2 # 1) ^ 1)%Q with (inject_Z 2). ring.
  - destruct m as [| p | p]; [| | lia].
    + intros _. cbn [F2Q]. ring.
    + destruct (e <=? emax - prec); [| discriminate]. intros _.
      cbn [F2Q sign_factor]. ring.
Qed.

(** Rounding keeps the quotient between two integers that bracket it, as
    long as they are integers a float holds exactly. *)
Lemma rounded_between (a b lo hi : Z) :
  0 < a -> 0 < b ->
  lo * b <= a <= hi * b ->
  hi <= 2 ^ 53 ->
  let e := quotient_exponent a b in
  let m := round_half_even (scale_num a e) (scale_den b e) in
  lo * 2 ^ Z.max (- e) 0 <= m * 2 ^ Z.max e 0 <= hi * 2 ^ Z.max (- e) 0.
Proof.
  intros Ha Hb Hab Hhi e m.
  destruct (quotient_exponent_range a b Ha Hb) as (Hemin & _ & Hlo). fold e in Hemin, Hlo.
  pose proof (scale_den_pos b e Hb) as HD.
  pose proof (scale_num_pos a e Ha) as HN.
  destruct (round_half_even_near (scale_num a e) (scale_den b e) ltac:(lia) HD)
    as (_ & Hnear & _).
  fold m in Hnear. clearbody m. unfold scale_num, scale_den in *.
  assert (HU : 0 < 2 ^ Z.max e 0) by (apply Z.pow_pos_nonneg; lia).
  assert (HV : 0 < 2 ^ Z.max (- e) 0) by (apply Z.pow_pos_nonneg; lia).
  destruct (Z_le_gt_dec e 0) as [He | He].
  - (* the unit in the last place is at most one *)
    rewrite (Z.max_r e 0) in * by lia. change (2 ^ 0) with 1 in *.
    set (V := 2 ^ Z.max (- e) 0) in *.
    rewrite !Z.mul_1_r in *.
    assert (H1 : (2 * m - 2 * hi * V - 1) * b <= 0) by nia.
    assert (H2 : (2 * lo * V - 2 * m - 1) * b <= 0) by nia.
    split; nia.
  - (* the quotient is at least 2^53, so it is 2^53 *)
    rewrite (Z.max_r (- e) 0) in * by lia. change (2 ^ 0) with 1 in *.
    rewrite (Z.max_l e 0) in * by lia.
    pose proof (Z.pow_le_mono_r 2 1 e ltac:(lia) ltac:(lia)) as H2e.
    change (2 ^ 1) with 2 in H2e.
    set (U := 2 ^ e) in *. rewrite !Z.mul_1_r in *.
    specialize (Hlo ltac:(unfold emin; lia)).
    assert (HU2 : U = 2).
    { assert (2 ^ 52 * U * b <= 2 ^ 53 * b) by nia.
      change (2 ^ 53) with (2 ^ 52 * 2) in *. nia. }
    rewrite HU2 in *.
    assert (Ha53 : a = 2 ^ 53 * b) by (change (2 ^ 53) with (2 ^ 52 * 2) in *; nia).
    assert (Hhi53 : hi = 2 ^ 53) by nia.
    assert (Hm : m = 2 ^ 52).
    { rewrite Ha53 in Hnear. change (2 ^ 53) with (2 ^ 52 * 2) in Hnear. nia. }
    rewrite Hm, Hhi53. change (2 ^ 52 * 2) with (2 ^ 53). nia.
Qed.

Section Lifting.

Local Open Scope Q_scope.

Lemma scaled_le_rational (x y e : Z) :
  (x * 2 ^ Z.max (- e) 0 <= y * 2 ^ Z.max e 0)%Z ->
  inject_Z x <= inject_Z y * (2 # 1) ^ e.
Proof.
  intros H. rewrite pow2_fraction.
  assert (HU : (0 < 2 ^ Z.max e 0)%Z) by (apply Z.pow_pos_nonneg; lia).
  assert (HV : (0 < 2 ^ Z.max (- e) 0)%Z) by (apply Z.pow_pos_nonneg; lia).
  set (U := (2 ^ Z.max e 0)%Z) in *. set (V := (2 ^ Z.max (- e) 0)%Z) in *.
  destruct U as [| pu | pu]; try lia.
  destruct V as [| pv | pv]; try lia.
  unfold Qle, Qdiv, Qmult, Qinv, inject_Z. cbn [Qnum Qden]. nia.
Qed.

Lemma scaled_ge_rational (x y e : Z) :
  (y * 2 ^ Z.max e 0 <= x * 2 ^ Z.max (- e) 0)%Z ->
  inject_Z y * (2 # 1) ^ e <= inject_Z x.
Proof.
  intros H. rewrite pow2_fraction.
  assert (HU : (0 < 2 ^ Z.max e 0)%Z) by (apply Z.pow_pos_nonneg; lia).
  assert (HV : (0 < 2 ^ Z.max (- e) 0)%Z) by (apply Z.pow_pos_nonneg; lia).
  set (U := (2 ^ Z.max e 0)%Z) in *. set (V := (2 ^ Z.max (- e) 0)%Z) in *.
  destruct U as [| pu | pu]; try lia.
  destruct V as [| pv | pv]; try lia.
  unfold Qle, Qdiv, Qmult, Qinv, inject_Z. cbn [Qnum Qden]. nia.
Qed.

(** The rounded quotient of two positive integers stays between integer
    bounds of the exact quotient. *)
Lemma div_round_between (a b lo hi : Z) :
  (0 < a)%Z -> (0 < b)%Z ->
  (lo * b <= a <= hi * b)%Z ->
  (hi <= 2 ^ 53)%Z ->
  is_finite (div_round a b) = true
  /\ inject_Z lo <= F2Q (div_round a b) <= inject_Z hi.
Proof.
  intros Ha Hb Hab Hhi.
  assert (Hfin : is_finite (div_round a b) = true).
  { apply div_round_finite; try assumption.
    assert (2 ^ 53 < overflow_threshold)%Z by reflexivity. nia. }
  split; [exact Hfin |].
  rewrite (div_round_value a b Ha Hb Hfin).
  destruct (rounded_between a b lo hi Ha Hb Hab Hhi) as [Hl Hh].
  split; [now apply scaled_le_rational | now apply scaled_ge_rational].
Qed.

End Lifting.

Lemma is_finite_with_sign (s : bool) (x : spec_float) :
  is_finite (with_sign s x) = is_finite x.
Proof. now destruct x. Qed.

Lemma F2Q_with_sign (s : bool) (a b : Z) :
  (F2Q (with_sign s (div_round a b)) == sign_factor s * F2Q (div_round a b))%Q.
Proof.
  unfold div_round.
  destruct (if _ =? _ then _ else _) as [m' e'].
  destruct m' as [| p | p]; [cbn; ring | | cbn; ring].
  destruct (e' <=? emax - prec); cbn; ring.
Qed.

Section Between.

Variables (a b lo hi : Z) (w : world).
Hypothesis Hb : 0 < b.
Hypothesis Hab : lo * b <= a <= hi * b.
Hypothesis Hlo : - 2 ^ 53 <= lo.
Hypothesis Hhi : hi <= 2 ^ 53.

(** True division by a positive integer returns a float between any two
    exactly representable integers that bracket the exact quotient. *)
Lemma int_true_divide_between :
  exists f,
    int_true_divide a b w = (Ok (VFloat f), w)
    /\ is_finite f = true
    /\ (inject_Z lo <= F2Q f <= inject_Z hi)%Q.
Proof.
  unfold int_true_divide.
  destruct (Z.eqb_spec b 0) as [? | _]; [lia |].
  destruct (Z.ltb_spec b 0) as [? | _]; [lia |]. rewrite xorb_false_r.
  rewrite (Z.abs_eq b) by lia.
  destruct (Z.eqb_spec a 0) as [Ha0 | Ha0].
  - eexists. split; [reflexivity |]. split; [reflexivity |].
    destruct (Z.ltb a 0); cbn [F2Q]; change 0%Q with (inject_Z 0);
      rewrite <- !Zle_Qle; nia.
  - destruct (Z.ltb_spec a 0) as [Hneg | Hpos].
    + rewrite (Z.abs_neq a) by lia.
      destruct (div_round_between (- a) b (- hi) (- lo)) as (Hfin & Hl & Hh);
        try lia.
      rewrite Hfin. eexists. split; [reflexivity |].
      split; [now rewrite is_finite_with_sign |].
      rewrite F2Q_with_sign. cbn [sign_factor].
      rewrite inject_Z_opp in Hl, Hh. split; lra.
    + rewrite (Z.abs_eq a) by lia.
      destruct (div_round_between a b lo hi) as (Hfin & Hl & Hh); try lia.
      rewrite Hfin. eexists. split; [reflexivity |].
      split; [now rewrite is_finite_with_sign |].
      rewrite F2Q_with_sign. cbn [sign_factor]. split; lra.
Qed.

End Between.

Lemma int_true_divide_result_float (a b : Z) (w : world) (v : value) :
  fst (int_true_divide a b w) = Ok v -> exists f, v = VFloat f.
Proof.
  unfold int_true_divide.
  destruct (b =? 0); [discriminate |].
  destruct (a =? 0); [intros [= <-]; now eexists |].
  destruct (is_finite _); [intros [= <-]; now eexists | discriminate].
Qed.

(** X1: the mean of a non-empty list of integers that all lie between [lo]
    and [hi], two integers of magnitude at most [2^53], is returned as a
    finite float whose value is itself between [lo] and [hi]; in
    particular no [OverflowError] is raised. *)
Theorem calculate_average_between (numbers : list Z) (lo hi : Z) (w : world) :
  numbers <> [] ->
  Forall (fun v => lo <= v <= hi) numbers ->
  - 2 ^ 53 <= lo ->
  hi <= 2 ^ 53 ->
  exists f,
    calculate_average numbers w = (Ok (VFloat f), w)
    /\ is_finite f = true
    /\ (inject_Z lo <= F2Q f <= inject_Z hi)%Q.
Proof.
  intros Hne Hall Hlo Hhi.
  rewrite (calculate_average_nonempty numbers Hne).
  apply int_true_divide_between; try assumption.
  - now apply py_len_pos.
  - now apply py_sum_bounds.
Qed.

Lemma calculate_average_between_witness :
  exists f,
    calculate_average [3; -5; 10] scenario_world = (Ok (VFloat f), scenario_world)
    /\ is_finite f = true
    /\ (inject_Z (-5) <= F2Q f <= inject_Z 10)%Q.
Proof.
  apply (calculate_average_between [3; -5; 10] (-5) 10 scenario_world).
  - discriminate.
  - repeat constructor; lia.
  - vm_compute. discriminate.
  - vm_compute. discriminate.
Defined.

(** X2: when the sum of a non-empty list is an exact multiple [q * len] of
    its length, with [q] of magnitude at most [2^53], the float returned
    is finite and has exactly the value [q]: no rounding error is made. *)
Theorem calculate_average_exact (numbers : list Z) (q : Z) (w : world) :
  numbers <> [] ->
  py_sum numbers = q * py_len numbers ->
  Z.abs q <= 2 ^ 53 ->
  exists f,
    calculate_average numbers w = (Ok (VFloat f), w)
    /\ is_finite f = true
    /\ (F2Q f == inject_Z q)%Q.
Proof.
  intros Hne Hsum Hq.
  rewrite (calculate_average_nonempty numbers Hne).
  destruct (int_true_divide_between (py_sum numbers) (py_len numbers) q q w)
    as (f & Hrun & Hfin & Hl & Hh); try lia.
  - now apply py_len_pos.
  - exists f. split; [exact Hrun |]. split; [exact Hfin |]. now apply Qle_antisym.
Qed.

Lemma calculate_average_exact_witness :
  exists f,
    calculate_average [7; 9; 11] scenario_world = (Ok (VFloat f), scenario_world)
    /\ is_finite f = true
    /\ (F2Q f == inject_Z 9)%Q.
Proof.
  apply (calculate_average_exact [7; 9; 11] 9 scenario_world).
  - discriminate.
  - reflexivity.
  - vm_compute. discriminate.
Defined.

(** X3: the order of the elements does not matter: two lists that are
    permutations of each other get the same result, be it a value or an
    exception. *)
Theorem calculate_average_permutation (l1 l2 : list Z) (w : world) :
  Permutation l1 l2 ->
  calculate_average l1 w = calculate_average l2 w.
Proof.
  intros Hperm. unfold calculate_average, py_len.
  now rewrite (py_sum_permutation l1 l2 Hperm), (Permutation_length Hperm).
Qed.

Lemma calculate_average_permutation_witness :
  calculate_average [1; 2; 3] scenario_world
  = calculate_average [3; 1; 2] scenario_world.
Proof.
  apply (calculate_average_permutation [1; 2; 3] [3; 1; 2] scenario_world).
  apply Permutation_sym, (Permutation_cons_app [1; 2] [] 3). reflexivity.
Defined.

(** X4: [calculate_average] returns an integer only for the empty list;
    on every non-empty list a returned value is a float. *)
Theorem calculate_average_int_iff_empty (numbers : list Z) (w : world) :
  (exists z, fst (calculate_average numbers w) = Ok (VInt z)) <-> numbers = [].
Proof.
  split.
  - intros [z Hz]. destruct numbers as [| x l]; [reflexivity | exfalso].
    rewrite calculate_average_nonempty in Hz by discriminate.
    apply int_true_divide_result_float in Hz. now destruct Hz.
  - intros ->. now exists 0.
Qed.

(** X5: the only exception [calculate_average] can raise is
    [OverflowError], and it does so only on a non-empty list whose sum is
    at least [overflow_threshold] times its length in magnitude. *)
Theorem calculate_average_raises_only_overflow
    (numbers : list Z) (w : world) (e : exn) :
  fst (calculate_average numbers w) = Raise e ->
  e = OverflowError
  /\ numbers <> []
  /\ overflow_threshold * py_len numbers <= Z.abs (py_sum numbers).
Proof.
  intros Hraise. destruct numbers as [| x l]; [discriminate |].
  assert (Hne : x :: l <> []) by discriminate.
  pose proof (py_len_pos (x :: l) Hne) as Hlen.
  rewrite (calculate_average_nonempty _ Hne) in Hraise.
  destruct (Z_lt_le_dec (Z.abs (py_sum (x :: l))) (overflow_threshold * py_len (x :: l)))
    as [Hsmall | Hbig].
  - destruct (int_true_divide_returns _ _ w Hlen Hsmall) as (f & Hrun & _).
    rewrite Hrun in Hraise. discriminate.
  - rewrite (int_true_divide_overflows _ _ w Hlen Hbig) in Hraise.
    injection Hraise as <-. now repeat split.
Qed.

Lemma calculate_average_raises_only_overflow_witness :
  OverflowError = OverflowError
  /\ [2 ^ 1024] <> []
  /\ overflow_threshold * py_len [2 ^ 1024] <= Z.abs (py_sum [2 ^ 1024]).
Proof.
  apply (calculate_average_raises_only_overflow [2 ^ 1024] scenario_world OverflowError).
  vm_compute. reflexivity.
Defined.

(** ** More on the random sequence generator *)

(** X6: a length of zero or less gives the empty list, whatever the
    bounds: [range] of a negative number is empty, so nothing is drawn and
    nothing is raised. *)
Theorem generate_random_list_nonpositive_length
    (length min_value max_value : Z) (w : world) :
  length <= 0 ->
  generate_random_list length min_value max_value w = (Ok [], w).
Proof.
  intros Hlen. unfold generate_random_list, range_len.
  now replace (Z.to_nat length) with O by lia.
Qed.

Lemma generate_random_list_nonpositive_length_witness :
  generate_random_list (-3) 100 1 scenario_world = (Ok [], scenario_world).
Proof.
  apply (generate_random_list_nonpositive_length (-3) 100 1 scenario_world). lia.
Defined.

(** X7: with valid bounds the generator takes exactly [length] draws from
    the random source, one per element, and writes nothing to standard
    output. *)
Theorem generate_random_list_draws (length min_value max_value : Z) (w : world) :
  0 <= length ->
  min_value <= max_value ->
  exists l,
    generate_random_list length min_value max_value w
    = (Ok l, mkWorld (entropy w) (Z.to_nat length + cursor w) (stdout w))
    /\ py_len l = length.
Proof.
  intros Hlen Hle. unfold generate_random_list, range_len.
  destruct (comprehension_randint min_value max_value (Z.to_nat length) Hle w)
    as (l & Hrun & Hn & _).
  exists l. split; [exact Hrun |]. unfold py_len. lia.
Qed.

Lemma generate_random_list_draws_witness :
  exists l,
    generate_random_list 10 1 100 scenario_world
    = (Ok l, mkWorld (entropy scenario_world)
               (Z.to_nat 10 + cursor scenario_world) (stdout scenario_world))
    /\ py_len l = 10.
Proof.
  apply (generate_random_list_draws 10 1 100 scenario_world); lia.
Defined.

Lemma comprehension_app {A} (body : M A) (n1 n2 : nat)
    (w w1 w2 : world) (l1 l2 : list A) :
  comprehension n1 body w = (Ok l1, w1) ->
  comprehension n2 body w1 = (Ok l2, w2) ->
  comprehension (n1 + n2) body w = (Ok (l1 ++ l2), w2).
Proof.
  revert w l1. induction n1 as [| n1 IH]; intros w l1 H1 H2.
  - cbn in H1. injection H1 as <- <-. exact H2.
  - cbn [comprehension Nat.add] in *. unfold bind in H1 |- *.
    destruct (body w) as [[x | e] w'] eqn:Hbody; [| discriminate].
    destruct (comprehension n1 body w') as [[xs | e] w''] eqn:Hrest; [| discriminate].
    cbn in H1. injection H1 as <- <-.
    now rewrite (IH w' xs Hrest H2).
Qed.

(** X8: two calls in a row draw what one longer call would: if a call for
    [n1] elements returns [l1] and a second call for [n2] elements, made in
    the state the first one left, returns [l2], then a single call for
    [n1 + n2] elements returns [l1 ++ l2] and leaves the same state. *)
Theorem generate_random_list_app
    (n1 n2 min_value max_value : Z) (w w1 w2 : world) (l1 l2 : list Z) :
  0 <= n1 -> 0 <= n2 ->
  generate_random_list n1 min_value max_value w = (Ok l1, w1) ->
  generate_random_list n2 min_value max_value w1 = (Ok l2, w2) ->
  generate_random_list (n1 + n2) min_value max_value w = (Ok (l1 ++ l2), w2).
Proof.
  intros Hn1 Hn2 H1 H2. unfold generate_random_list, range_len in *.
  rewrite Z2Nat.inj_add by assumption.
  exact (comprehension_app _ _ _ _ _ _ _ _ H1 H2).
Qed.

Lemma generate_random_list_app_witness :
  generate_random_list (4 + 6) 1 100 scenario_world
  = (Ok ([4; 77; 12; 99] ++ [3; 50; 21; 8; 64; 33]),
     mkWorld (entropy scenario_world) 10 (stdout scenario_world)).
Proof.
  apply (generate_random_list_app 4 6 1 100 scenario_world
           (mkWorld (entropy scenario_world) 4 (stdout scenario_world))).
  - lia.
  - lia.
  - vm_compute. reflexivity.
  - vm_compute. reflexivity.
Defined.

(** X9: when the two bounds are equal every element is that bound: the
    result is [length] copies of it, whatever the random source holds. *)
Theorem generate_random_list_single_value (length v : Z) (w : world) :
  fst (generate_random_list length v v w) = Ok (repeat v (Z.to_nat length)).
Proof.
  unfold generate_random_list, range_len.
  generalize (Z.to_nat length) as n. intros n. revert w.
  induction n as [| n IH]; intros w; [reflexivity |].
  cbn [comprehension repeat]. unfold bind at 1.
  destruct (randint_ok v v w ltac:(lia)) as (x & Hx & Hrange). rewrite Hx.
  assert (x = v) as -> by lia.
  unfold bind. specialize (IH (mkWorld (entropy w) (S (cursor w)) (stdout w))).
  destruct (comprehension n (randint v v) _) as [[xs | e] w']; cbn in IH |- *;
    [| discriminate].
  now injection IH as ->.
Qed.

(** ** Lines of the report *)

Lemma occurrences_app (c : ascii) (s1 s2 : string) :
  occurrences c (s1 ++ s2) = (occurrences c s1 + occurrences c s2)%nat.
Proof. induction s1 as [| c1 s1 IH]; cbn; [reflexivity | rewrite IH; lia]. Qed.

Lemma occurrences_substring (c : ascii) (s : string) (n m : nat) :
  (occurrences c (substring n m s) <= occurrences c s)%nat.
Proof.
  revert n m. induction s as [| c' s IH]; intros n m.
  - destruct n, m; cbn; lia.
  - destruct n as [| n]; [destruct m as [| m] |]; cbn; [lia | |].
    + specialize (IH O m). lia.
    + specialize (IH n m). lia.
Qed.

Lemma newlines_uint (d : Decimal.uint) :
  newlines (NilEmpty.string_of_uint d) = O.
Proof. induction d; cbn; assumption || reflexivity. Qed.

Lemma newlines_nilzero_uint (d : Decimal.uint) :
  newlines (NilZero.string_of_uint d) = O.
Proof.
  destruct d; [reflexivity | ..];
    match goal with
    | |- newlines (NilZero.string_of_uint ?x) = _ => exact (newlines_uint x)
    end.
Qed.

Lemma newlines_append (s1 s2 : string) :
  newlines s1 = O -> newlines s2 = O -> newlines (s1 ++ s2) = O.
Proof. unfold newlines. intros H1 H2. now rewrite occurrences_app, H1, H2. Qed.

Lemma newlines_substring (s : string) (n m : nat) :
  newlines s = O -> newlines (substring n m s) = O.
Proof.
  unfold newlines. intros Hs.
  pose proof (occurrences_substring (ascii_of_nat 10) s n m). lia.
Qed.

Lemma newlines_zeros (n : nat) : newlines (zeros n) = O.
Proof. induction n; [reflexivity | exact IHn]. Qed.

Lemma newlines_int_repr (z : Z) : newlines (int_repr z) = O.
Proof.
  unfold int_repr, NilZero.string_of_int.
  destruct (Z.to_int z) as [d | d]; [apply newlines_nilzero_uint |].
  exact (newlines_nilzero_uint d).
Qed.

Ltac no_newline :=
  repeat (simple apply newlines_append);
  first [ reflexivity
        | assumption
        | simple apply newlines_int_repr
        | simple apply newlines_zeros
        | simple apply newlines_substring; assumption ].

Lemma newlines_join (l : list Z) : newlines (join ", " (map int_repr l)) = O.
Proof.
  induction l as [| x l IH]; [reflexivity |].
  cbn [map join]. destruct (map int_repr l) as [| s rest].
  - apply newlines_int_repr.
  - no_newline.
Qed.

Lemma newlines_list_repr (l : list Z) : newlines (list_repr l) = O.
Proof.
  pose proof (newlines_join l). unfold list_repr. no_newline.
Qed.

Lemma newlines_exponent_repr (x : Z) : newlines (exponent_repr x) = O.
Proof.
  unfold exponent_repr. cbv zeta.
  destruct (x <? 0); destruct (Z.abs x <? 10); no_newline.
Qed.

Lemma newlines_format_short (ds : string) (decpt : Z) :
  newlines ds = O -> newlines (format_short ds decpt) = O.
Proof.
  intros Hds. pose proof (newlines_exponent_repr (decpt - 1)) as Hexp.
  unfold format_short. cbv zeta.
  destruct ((decpt <=? -4) || (16 <? decpt));
    [destruct (1 <? String.length ds)%nat; no_newline |].
  destruct (decpt <=? 0); [no_newline |].
  destruct (Z.of_nat (String.length ds) <=? decpt); no_newline.
Qed.

Lemma newlines_float_repr (x : spec_float) : newlines (float_repr x) = O.
Proof.
  destruct x as [s | s | | s m e]; try (destruct s; reflexivity); [reflexivity |].
  unfold float_repr.
  destruct (shortest_digits m e) as [ds decpt] eqn:Hsd.
  assert (Hds : newlines ds = O).
  { unfold shortest_digits in Hsd.
    destruct (shortest_from _ _ _ _ _) as [c k].
    destruct (strip_zeros _ _ _) as [c' k'].
    injection Hsd as <- _. apply newlines_int_repr. }
  pose proof (newlines_format_short ds decpt Hds).
  destruct s; no_newline.
Qed.

Lemma newlines_value_str (v : value) : newlines (value_str v) = O.
Proof. destruct v; [apply newlines_int_repr | apply newlines_float_repr]. Qed.

Lemma within_str_limit_true (z : Z) :
  Z.abs z < 10 ^ int_max_str_digits -> within_str_limit z = true.
Proof. intros Hz. now apply Z.ltb_lt. Qed.

Lemma within_str_limit_false (z : Z) :
  10 ^ int_max_str_digits <= Z.abs z -> within_str_limit z = false.
Proof. intros Hz. now apply Z.ltb_ge. Qed.

Lemma list_str_ok (numbers : list Z) :
  Forall (fun v => Z.abs v < 10 ^ int_max_str_digits) numbers ->
  list_str numbers = Ok (list_repr numbers).
Proof.
  intros Hall. unfold list_str.
  replace (forallb within_str_limit numbers) with true; [reflexivity |].
  symmetry. apply forallb_forall. intros v Hv.
  apply within_str_limit_true. revert v Hv. now apply Forall_forall.
Qed.

Lemma list_str_too_long (numbers : list Z) :
  Exists (fun v => 10 ^ int_max_str_digits <= Z.abs v) numbers ->
  list_str numbers = Raise ValueError.
Proof.
  intros Hex. unfold list_str.
  destruct (forallb within_str_limit numbers) eqn:Hall; [exfalso | reflexivity].
  apply Exists_exists in Hex. destruct Hex as (v & Hin & Hv).
  rewrite forallb_forall in Hall. specialize (Hall v Hin).
  rewrite (within_str_limit_false v Hv) in Hall. discriminate.
Qed.

(** Integers a float holds exactly are far below the limit on digits. *)
Lemma small_within_str_limit (z : Z) :
  Z.abs z <= 2 ^ 53 -> Z.abs z < 10 ^ int_max_str_digits.
Proof.
  intros Hz. apply (Z.le_lt_trans _ (2 ^ 53)); [exact Hz |].
  vm_compute. reflexivity.
Qed.

(** X10: [print_results] leaves the random source alone and has three
    outcomes.  When every integer it is given has at most 4300 digits, it
    succeeds and appends exactly two lines to standard output, the list
    after [Numbers: ] and the average after [Average: ], neither of which
    contains a line break of its own.  When an element of the list has
    more digits, it raises [ValueError] and prints nothing.  When only the
    average is such an integer, it raises [ValueError] after the first
    line. *)
Theorem print_results_two_lines (numbers : list Z) (average : value) (w : world) :
  (Forall (fun v => Z.abs v < 10 ^ int_max_str_digits) numbers ->
   (forall z, average = VInt z -> Z.abs z < 10 ^ int_max_str_digits) ->
   print_results numbers average w
   = (Ok tt,
      mkWorld (entropy w) (cursor w)
        (stdout w ++ ("Numbers: " ++ list_repr numbers) ++ newline
                  ++ ("Average: " ++ value_str average) ++ newline))
   /\ newlines ("Numbers: " ++ list_repr numbers) = O
   /\ newlines ("Average: " ++ value_str average) = O)
  /\ (Exists (fun v => 10 ^ int_max_str_digits <= Z.abs v) numbers ->
      print_results numbers average w = (Raise ValueError, w))
  /\ (Forall (fun v => Z.abs v < 10 ^ int_max_str_digits) numbers ->
      (exists z, average = VInt z /\ 10 ^ int_max_str_digits <= Z.abs z) ->
      print_results numbers average w
      = (Raise ValueError,
         mkWorld (entropy w) (cursor w)
           (stdout w ++ ("Numbers: " ++ list_repr numbers) ++ newline))).
Proof.
  split; [| split].
  - intros Hnumbers Haverage. split.
    + apply print_results_output; [now apply list_str_ok |].
      destruct average as [z | f]; [| reflexivity].
      cbn [value_text value_str]. unfold int_str.
      now rewrite within_str_limit_true by now apply Haverage.
    + pose proof (newlines_list_repr numbers).
      pose proof (newlines_value_str average).
      split; no_newline.
  - intros Hlong. unfold print_results, bind, lift.
    now rewrite (list_str_too_long numbers Hlong).
  - intros Hnumbers (z & -> & Hz). unfold print_results, bind, lift, print.
    rewrite (list_str_ok numbers Hnumbers). cbn [value_text]. unfold int_str.
    now rewrite (within_str_limit_false z Hz).
Qed.

(** ** The generator, the calculator and the report together *)

(** The mean of what the generator returns is computed without error and
    lies within the bounds the elements were drawn from. *)
Lemma average_of_generated (n : nat) (min_value max_value : Z) (w : world) :
  (0 < n)%nat ->
  min_value <= max_value ->
  - 2 ^ 53 <= min_value ->
  max_value <= 2 ^ 53 ->
  exists l f,
    comprehension n (randint min_value max_value) w
    = (Ok l, mkWorld (entropy w) (n + cursor w) (stdout w))
    /\ List.length l = n
    /\ Forall (fun v => min_value <= v <= max_value) l
    /\ (forall w', calculate_average l w' = (Ok (VFloat f), w'))
    /\ is_finite f = true
    /\ (inject_Z min_value <= F2Q f <= inject_Z max_value)%Q.
Proof.
  intros Hn Hle Hmin Hmax.
  destruct (comprehension_randint min_value max_value n Hle w) as (l & Hrun & Hlen & Hall).
  assert (Hne : l <> []) by (destruct l; [cbn in Hlen; lia | discriminate]).
  destruct (int_true_divide_between (py_sum l) (py_len l) min_value max_value w)
    as (f & Hdiv & Hfin & Hbounds); try assumption.
  { now apply py_len_pos. }
  { now apply py_sum_bounds. }
  exists l, f. repeat split; try assumption; try apply Hbounds.
  intros w'. rewrite (calculate_average_nonempty l Hne).
  destruct (int_true_divide_pure (py_sum l) (py_len l)) as [r Hr].
  rewrite Hr in Hdiv |- *. now injection Hdiv as ->.
Qed.

(** X11: the generator feeds the calculator safely: for a length of at
    least one and bounds [min_value <= max_value] of magnitude at most
    [2^53], the average of the generated list is returned as a finite
    float, with no exception, and its value lies between [min_value] and
    [max_value]. *)
Theorem generated_average_between (length min_value max_value : Z) (w : world) :
  1 <= length ->
  min_value <= max_value ->
  - 2 ^ 53 <= min_value ->
  max_value <= 2 ^ 53 ->
  exists l w' f,
    generate_random_list length min_value max_value w = (Ok l, w')
    /\ calculate_average l w' = (Ok (VFloat f), w')
    /\ is_finite f = true
    /\ (inject_Z min_value <= F2Q f <= inject_Z max_value)%Q.
Proof.
  intros Hlen Hle Hmin Hmax. unfold generate_random_list, range_len.
  destruct (average_of_generated (Z.to_nat length) min_value max_value w)
    as (l & f & Hrun & _ & _ & Havg & Hfin & Hbounds); try assumption; [lia |].
  exists l. eexists. exists f.
  split; [exact Hrun |]. split; [apply Havg |]. split; [exact Hfin | exact Hbounds].
Qed.

Lemma generated_average_between_witness :
  exists l w' f,
    generate_random_list 10 1 100 scenario_world = (Ok l, w')
    /\ calculate_average l w' = (Ok (VFloat f), w')
    /\ is_finite f = true
    /\ (inject_Z 1 <= F2Q f <= inject_Z 100)%Q.
Proof.
  apply (generated_average_between 10 1 100 scenario_world);
    try lia; vm_compute; discriminate.
Defined.

(** X12: whatever the random source holds, the main block ends without an
    exception.  It takes exactly ten draws, which give a list [l] of ten
    numbers, each between 1 and 100, and appends exactly two lines to
    standard output: the text of [l], and the text of the float [f] that
    [calculate_average] returns for [l], whose value is between 1 and
    100. *)
Theorem main_runs (w : world) :
  exists l f,
    generate_random_list 10 1 100 w
    = (Ok l, mkWorld (entropy w) (10 + cursor w) (stdout w))
    /\ (forall w', calculate_average l w' = (Ok (VFloat f), w'))
    /\ main w
       = (Ok tt,
          mkWorld (entropy w) (10 + cursor w)
            (stdout w ++ ("Numbers: " ++ list_repr l) ++ newline
                      ++ ("Average: " ++ float_repr f) ++ newline))
    /\ py_len l = 10
    /\ Forall (fun v => 1 <= v <= 100) l
    /\ is_finite f = true
    /\ (inject_Z 1 <= F2Q f <= inject_Z 100)%Q.
Proof.
  destruct (average_of_generated 10 1 100 w)
    as (l & f & Hrun & Hlen & Hall & Havg & Hfin & Hbounds);
    [lia | lia | vm_compute; discriminate | vm_compute; discriminate |].
  assert (Htext : list_str l = Ok (list_repr l)).
  { apply list_str_ok. apply (Forall_impl _ (P := fun v => 1 <= v <= 100)); [| exact Hall].
    intros v Hv. apply small_within_str_limit.
    apply (Z.le_trans _ 100); [lia |]. vm_compute. discriminate. }
  exists l, f. repeat split; try assumption; try apply Hbounds.
  - unfold main, generate_random_list, range_len in *.
    change default_min_value with 1. change default_max_value with 100.
    change (Z.to_nat 10) with 10%nat.
    rewrite (bind_ok _ _ _ _ _ Hrun).
    rewrite (bind_ok _ _ _ _ _ (Havg _)).
    rewrite (bind_ok _ _ _ _ _
               (print_results_output l (VFloat f) _ _ _ Htext eq_refl)).
    reflexivity.
  - unfold py_len. now rewrite Hlen.
Qed.

(** * The average of any numeric sequence *)

(** ** Rounding to nearest, ties to even *)



Section Scaling.

Local Open Scope Q_scope.

Lemma pow2_Q_pos (e : Z) : 0 < (2 # 1) ^ e.
Proof. apply Qpower_0_lt. reflexivity. Qed.

Variables a b e : Z.
Hypothesis Hb : (0 < b)%Z.

(** The distance between [k * 2^e] and [a / b], in units of
    [2^e / scale_den b e]. *)
Lemma scaled_distance (k : Z) :
  Qabs (inject_Z k * (2 # 1) ^ e - inject_Z a / inject_Z b)
    * inject_Z (scale_den b e)
  == inject_Z (Z.abs (k * scale_den b e - scale_num a e)) * (2 # 1) ^ e.
Proof.
  rewrite pow2_fraction. unfold scale_den, scale_num.
  assert (HU : (0 < 2 ^ Z.max e 0)%Z) by (apply Z.pow_pos_nonneg; lia).
  assert (HV : (0 < 2 ^ Z.max (- e) 0)%Z) by (apply Z.pow_pos_nonneg; lia).
  set (U := (2 ^ Z.max e 0)%Z) in *. set (V := (2 ^ Z.max (- e) 0)%Z) in *.
  destruct b as [| pb | pb]; try lia.
  destruct U as [| pu | pu]; try lia.
  destruct V as [| pv | pv]; try lia.
  unfold Qeq, Qabs, Qminus, Qplus, Qopp, Qdiv, Qmult, Qinv, inject_Z.
  cbn [Qnum Qden].
  rewrite ?Pos.mul_1_l, ?Pos.mul_1_r, ?Pos2Z.inj_mul.
  replace (k * (Z.pos pu * 1) * Z.pos pb + - (a * 1) * Z.pos pv)%Z
    with (k * (Z.pos pb * Z.pos pu) - a * Z.pos pv)%Z by ring.
  ring.
Qed.




Lemma distance_half (k : Z) :
  Qabs (inject_Z k * (2 # 1) ^ e - inject_Z a / inject_Z b)
  == (1 # 2) * (2 # 1) ^ e ->
  (2 * Z.abs (k * scale_den b e - scale_num a e) = scale_den b e)%Z.
Proof.
  intros Hhalf. apply inject_Z_injective.
  apply (Qmult_inj_r _ _ ((2 # 1) ^ e)).
  - intros H0. pose proof (pow2_Q_pos e) as Hpos. rewrite H0 in Hpos.
    now apply Qlt_irrefl in Hpos.
  - rewrite inject_Z_mult, <- Qmult_assoc, <- scaled_distance.
    rewrite Hhalf. change (inject_Z 2) with (2 # 1). ring.
Qed.


End Scaling.



Section Classify.

Local Open Scope Q_scope.


End Classify.

Section NearestQuotient.

Local Open Scope Q_scope.







End NearestQuotient.


Section OddMultiple.

Local Open Scope Q_scope.


End OddMultiple.

Section Unique.

Local Open Scope Q_scope.



End Unique.

Lemma sign_bit_with_sign (s : bool) (x : spec_float) :
  is_finite x = true -> sign_bit (with_sign s x) = s.
Proof. now destruct x. Qed.



(** ** The average of integers and floats *)



(** A sum of floats is the left-to-right IEEE sum, started at [0.0]. *)
Lemma sum_from_floats (start : spec_float) (floats : list spec_float) :
  sum_from (VFloat start) (map VFloat floats)
  = Ok (VFloat (fold_left (SFadd prec emax) floats start)).
Proof.
  revert start. induction floats as [| x l IH]; intros start; [reflexivity |].
  cbn [map sum_from num_add obind fold_left]. apply IH.
Qed.

Lemma num_sum_floats (floats : list spec_float) :
  floats <> [] ->
  num_sum (map VFloat floats)
  = Ok (VFloat (fold_left (SFadd prec emax) floats (S754_zero false))).
Proof.
  destruct floats as [| x l]; [easy | intros _].
  unfold num_sum. cbn [map sum_from num_add obind fold_left].
  change (int_to_float 0) with (Ok (S754_zero false)). cbn [obind].
  apply sum_from_floats.
Qed.





Lemma of_int_positive (n : Z) :
  0 < n ->
  is_zero (of_int n) = false
  /\ (n < overflow_threshold -> is_finite (of_int n) = true).
Proof.
  intros Hn. destruct n as [| p | p]; try lia. cbn [of_int]. split.
  - pose proof (div_round_spec (Zpos p) 1 Hn ltac:(lia)) as Hspec.
    destruct (div_round (Zpos p) 1); try reflexivity.
    exfalso. destruct Hspec as [_ Hzero].
    unfold scale_num, scale_den in Hzero.
    change (Z.max emin 0) with 0 in Hzero. change (2 ^ 0) with 1 in Hzero.
    pose proof (Z.pow_pos_nonneg 2 (Z.max (- emin) 0) ltac:(lia) ltac:(lia)).
    nia.
  - intros Hsmall. apply div_round_finite; lia.
Qed.

(** Dividing a float by a positive count is an IEEE division, unless the
    count itself is too large for a float. *)
Lemma float_by_count (s : spec_float) (count : Z) (w : world) :
  0 < count ->
  (count < overflow_threshold ->
   true_divide (VFloat s) (VInt count) w
   = (Ok (VFloat (SFdiv prec emax s (of_int count))), w))
  /\ ((exists f, true_divide (VFloat s) (VInt count) w = (Ok (VFloat f), w))
      \/ true_divide (VFloat s) (VInt count) w = (Raise OverflowError, w)).
Proof.
  intros Hcount. destruct (of_int_positive count Hcount) as [Hnz Hfin].
  unfold true_divide, lift, int_to_float, float_true_divide.
  split.
  - intros Hsmall. cbv zeta. rewrite (Hfin Hsmall). cbn [obind]. now rewrite Hnz.
  - cbv zeta. destruct (is_finite (of_int count)); cbn [obind].
    + rewrite Hnz. left. now eexists.
    + now right.
Qed.


Lemma py_len_map {A B} (f : A -> B) (l : list A) : py_len (map f l) = py_len l.
Proof. unfold py_len. now rewrite length_map. Qed.

(** When the sum is a float, the result is its IEEE quotient by the
    count. *)
Lemma calculate_average_num_float_sum
    (numbers : list value) (s : spec_float) (w : world) :
  numbers <> [] ->
  num_sum numbers = Ok (VFloat s) ->
  py_len numbers < overflow_threshold ->
  calculate_average_num numbers w
  = (Ok (VFloat (SFdiv prec emax s (of_int (py_len numbers)))), w).
Proof.
  intros Hne Hsum Hlen. pose proof (py_len_pos numbers Hne) as Hpos.
  unfold calculate_average_num, bind, lift. rewrite Hsum.
  destruct (Z.eqb_spec (py_len numbers) 0); [lia |].
  now apply float_by_count.
Qed.

(** On a sequence of floats: the quotient by the length of the
    left-to-right floating-point sum, with no exception. *)
Lemma calculate_average_num_floats (floats : list spec_float) (w : world) :
  floats <> [] ->
  py_len floats < overflow_threshold ->
  calculate_average_num (map VFloat floats) w
  = (Ok (VFloat (SFdiv prec emax
                   (fold_left (SFadd prec emax) floats (S754_zero false))
                   (of_int (py_len floats)))), w).
Proof.
  intros Hne Hlen. rewrite <- (py_len_map VFloat floats) in Hlen |- *.
  apply calculate_average_num_float_sum; try assumption.
  - destruct floats; [easy | discriminate].
  - now apply num_sum_floats.
Qed.

(** The floats [0.1], [0.2] and [0.3] average to [0.20000000000000004]:
    each addition rounds. *)
Example calculate_average_num_tenths :
  calculate_average_num
    [VFloat (div_round 1 10); VFloat (div_round 2 10); VFloat (div_round 3 10)]
    scenario_world
  = (Ok (VFloat (S754_finite false 7205759403792795 (-55))), scenario_world)
  /\ float_repr (S754_finite false 7205759403792795 (-55))
     = "0.20000000000000004"%string.
Proof. split; vm_compute; reflexivity. Qed.




(** [nearest_even] leaves no choice at a tie or at the edge of a binade:
    for the quotient [2^53 + 1] it refuses the odd neighbour
    [2^53 + 2], and for [2^53 - 1], a float itself, it refuses [2^53]. *)
Example nearest_even_refuses_odd_tie :
  ~ nearest_even (inject_Z (2 ^ 53 + 1)) (S754_finite false 4503599627370497 1).
Proof.
  intros (_ & _ & Htie).
  specialize (Htie (S754_finite false 4503599627370496 1)).
  assert (Heven : Z.even (significand (S754_finite false 4503599627370497 1)) = true).
  { apply Htie.
    - split; reflexivity.
    - unfold Qeq. vm_compute. reflexivity.
    - unfold Qeq. vm_compute. discriminate. }
  discriminate Heven.
Qed.

Example nearest_even_refuses_farther_float :
  ~ nearest_even (inject_Z (2 ^ 53 - 1)) (S754_finite false 4503599627370496 1).
Proof.
  intros (_ & Hle & _).
  specialize (Hle (S754_finite false 9007199254740991 0)).
  assert (Hcan : canonical (S754_finite false 9007199254740991 0))
    by (split; reflexivity).
  specialize (Hle Hcan). revert Hle. unfold Qle. vm_compute. intros H. now apply H.
Qed.
